(** * Node-selection reward: field extraction and scoring

    A shallow embedding of [verl/utils/reward_score/node_selection.py]:
    the two functions [validate_and_extract_llm_content] and
    [compute_score], together with the parts of the Python runtime they
    rest on ([str.strip], [str.split], [re.sub], [re.search] for the one
    pattern of the module, binary64 addition). *)

From Stdlib Require Import NArith ZArith Lia Bool List Ascii String.
From Stdlib Require Import Floats.SpecFloat.
From stdpp Require Import base list gmap.

(** ** Python strings

    A [str] is a sequence of Unicode code points. *)

Module PyStr.

Local Open Scope N_scope.

Definition char := N.
Definition pystr := list char.

(** An ASCII literal as a [str]. *)
Definition lit (s : string) : pystr :=
  map N_of_ascii (list_ascii_of_string s).

(** [Py_UNICODE_ISSPACE]: the characters for which [str.isspace] holds.
    Both [str.strip] without argument and the [\s] class of a [str]
    pattern use it. *)
Definition is_space (c : char) : bool :=
  ((9 <=? c) && (c <=? 13)) || ((28 <=? c) && (c <=? 32))
  || (c =? 133) || (c =? 160) || (c =? 5760)
  || ((8192 <=? c) && (c <=? 8202))
  || (c =? 8232) || (c =? 8233) || (c =? 8239) || (c =? 8287)
  || (c =? 12288).

Fixpoint lstrip (s : pystr) : pystr :=
  match s with
  | [] => []
  | c :: s' => if is_space c then lstrip s' else s
  end.

Fixpoint rstrip (s : pystr) : pystr :=
  match s with
  | [] => []
  | c :: s' =>
      match rstrip s' with
      | [] => if is_space c then [] else [c]
      | t => c :: t
      end
  end.

(** [s.strip()] *)
Definition strip (s : pystr) : pystr := rstrip (lstrip s).

(** [re.sub(r"\s+", " ", s)]: scanning from the left, every maximal run
    of whitespace is replaced by one space.  The flag records that the
    scan is inside a run whose replacement was already emitted. *)
Fixpoint sub_spaces_from (in_run : bool) (s : pystr) : pystr :=
  match s with
  | [] => []
  | c :: s' =>
      if is_space c
      then (if in_run then sub_spaces_from true s'
            else 32 :: sub_spaces_from true s')
      else c :: sub_spaces_from false s'
  end.

Definition sub_spaces (s : pystr) : pystr := sub_spaces_from false s.

(** [s.split(sep)] for a one-character separator: never an empty list. *)
Fixpoint split (sep : char) (s : pystr) : list pystr :=
  match s with
  | [] => [[]]
  | c :: s' =>
      if c =? sep then [] :: split sep s'
      else match split sep s' with
           | piece :: rest => (c :: piece) :: rest
           | [] => [[c]]
           end
  end.

(** [s[a:b]] for [0 <= a <= b]. *)
Definition slice (s : pystr) (a b : nat) : pystr := take (b - a) (drop a s).

(** ASCII part of lower-casing. *)
Definition ascii_lower (c : char) : char :=
  if (65 <=? c) && (c <=? 90) then c + 32 else c.

End PyStr.

Import PyStr.

(** ** The regular-expression matcher

    A backtracking matcher in the manner of CPython's [sre], for the
    constructs that the pattern of the module uses, under the flags
    [re.DOTALL | re.IGNORECASE]. *)

Module Sre.

Local Open Scope N_scope.

Inductive group := Gintent | Gnode | Greason.

#[global] Instance group_eq_dec : EqDecision group.
Proof. solve_decision. Defined.

(** One-character sets. *)
Inductive cset :=
| Lit (c : char)   (* a literal, compared ignoring case *)
| Space            (* \s *)
| Any.             (* . under DOTALL *)

(** Pattern items; a pattern is a list of them. *)
Inductive op :=
| One (k : cset)
| Rep (k : cset) (min : nat) (greedy : bool)  (* k* , k+ , k+? *)
| Open (g : group)                            (* start of (?P<g> *)
| Close (g : group)                           (* its closing parenthesis *)
| Eos.                                        (* $ without MULTILINE *)

(** A literal ASCII pattern character [p] under IGNORECASE matches [x]
    when the simple lower-case mapping of [x] is the lower case of [p] or
    one of the characters [sre] treats as case-equivalent to it.  Besides
    the two ASCII forms of a letter these are: U+0130 and U+0131 for i,
    U+017F for s, U+212A for k. *)
Definition lit_ignorecase (p x : char) : bool :=
  let lo := ascii_lower p in
  (ascii_lower x =? lo)
  || ((lo =? 105) && ((x =? 304) || (x =? 305)))
  || ((lo =? 115) && (x =? 383))
  || ((lo =? 107) && (x =? 8490)).

Definition in_cset (k : cset) (x : char) : bool :=
  match k with
  | Lit p => lit_ignorecase p x
  | Space => is_space x
  | Any => true
  end.

(** Marks: the positions recorded at group boundaries, newest first. *)
Definition marks := list (group * bool * nat).

(** A continuation is the rest of the pattern, run at a position on the
    text that remains there. *)
Definition cont := nat -> pystr -> marks -> option (nat * marks).

Local Close Scope N_scope.

(** Greedy repetition of a one-character set: take as many as possible,
    then give back one at a time until the rest of the pattern matches. *)
Fixpoint rep_greedy (k : cset) (min : nat) (kont : cont)
    (pos : nat) (rest : pystr) (mk : marks) : option (nat * marks) :=
  let stop := match min with O => kont pos rest mk | S _ => None end in
  match rest with
  | x :: rest' =>
      if in_cset k x then
        match rep_greedy k (Nat.pred min) kont (S pos) rest' mk with
        | Some r => Some r
        | None => stop
        end
      else stop
  | [] => stop
  end.

(** Lazy repetition: take the minimum, then one more only when the rest
    of the pattern fails. *)
Fixpoint rep_lazy (k : cset) (min : nat) (kont : cont)
    (pos : nat) (rest : pystr) (mk : marks) : option (nat * marks) :=
  let more :=
    match rest with
    | x :: rest' =>
        if in_cset k x then rep_lazy k (Nat.pred min) kont (S pos) rest' mk
        else None
    | [] => None
    end in
  match min with
  | S _ => more
  | O => match kont pos rest mk with
         | Some r => Some r
         | None => more
         end
  end.

(** [$] matches at the end of the text and just before a newline that
    ends the text. *)
Definition at_end (rest : pystr) : bool :=
  match rest with
  | [] => true
  | [c] => N.eqb c 10
  | _ => false
  end.

Definition step (o : op) (kont : cont) : cont :=
  match o with
  | One k => fun pos rest mk =>
      match rest with
      | x :: rest' => if in_cset k x then kont (S pos) rest' mk else None
      | [] => None
      end
  | Rep k min true => rep_greedy k min kont
  | Rep k min false => rep_lazy k min kont
  | Open g => fun pos rest mk => kont pos rest ((g, true, pos) :: mk)
  | Close g => fun pos rest mk => kont pos rest ((g, false, pos) :: mk)
  | Eos => fun pos rest mk => if at_end rest then kont pos rest mk else None
  end.

Definition accept : cont := fun pos _ mk => Some (pos, mk).

Fixpoint exec (p : list op) : cont :=
  match p with
  | [] => accept
  | o :: p' => step o (exec p')
  end.

(** The match object: where the match starts and ends, and the marks. *)
Record match_obj := MatchObj { m_start : nat; m_end : nat; m_marks : marks }.

(** [re.search]: the first start position, from the left, at which the
    pattern matches. *)
Fixpoint search_from (p : list op) (pos : nat) (rest : pystr)
  : option match_obj :=
  match exec p pos rest [] with
  | Some (e, mk) => Some (MatchObj pos e mk)
  | None =>
      match rest with
      | [] => None
      | _ :: rest' => search_from p (S pos) rest'
      end
  end.

Definition search (p : list op) (s : pystr) : option match_obj :=
  search_from p 0 s.

Fixpoint mark_of (g : group) (opening : bool) (mk : marks) : option nat :=
  match mk with
  | [] => None
  | (g', o', pos) :: mk' =>
      if decide (g' = g /\ o' = opening) then Some pos
      else mark_of g opening mk'
  end.

Definition span (m : match_obj) (g : group) : option (nat * nat) :=
  match mark_of g true (m_marks m), mark_of g false (m_marks m) with
  | Some a, Some b => Some (a, b)
  | _, _ => None
  end.

End Sre.

Import Sre.

(** ** The field extractor *)

(** The pattern of the module,
    [Intent:\s*(?P<intent>.+?)\s*Node:\s*(?P<node>.+?)\s*Reason:\s*(?P<reason>.+)$]. *)
Definition lits (s : string) : list op := map (fun c => One (Lit c)) (lit s).

Definition spaces : op := Rep Space 0 true.

Definition pattern : list op :=
  lits "Intent:" ++ [spaces; Open Gintent; Rep Any 1 false; Close Gintent; spaces]
  ++ lits "Node:" ++ [spaces; Open Gnode; Rep Any 1 false; Close Gnode; spaces]
  ++ lits "Reason:" ++ [spaces; Open Greason; Rep Any 1 true; Close Greason; Eos].

(** [match.group(g)]; every group of [pattern] takes part in every match
    (lemma [search_spans] below), so the default is never used. *)
Definition m_group (s : pystr) (m : match_obj) (g : group) : pystr :=
  match span m g with
  | Some (a, b) => slice s a b
  | None => []
  end.

(** Truth value of a [str]: non-empty. *)
Definition truthy (s : pystr) : bool :=
  match s with [] => false | _ => true end.

Definition extraction : Type := bool * option pystr * option pystr * option pystr.

Definition Invalid : extraction := (false, None, None, None).

Definition is_valid (e : extraction) : bool := e.1.1.1.

Definition validate_and_extract_llm_content (content : pystr) : extraction :=
  let cleaned_content := sub_spaces (strip content) in
  match search pattern cleaned_content with
  | None => Invalid
  | Some m =>
      let intent_content := strip (m_group cleaned_content m Gintent) in
      let node_content := strip (m_group cleaned_content m Gnode) in
      let reason_content := strip (m_group cleaned_content m Greason) in
      if negb (truthy intent_content && truthy node_content
               && truthy reason_content)
      then Invalid
      else (true, Some intent_content, Some node_content, Some reason_content)
  end.


(** ** The reward scorer *)

(** Python's [float] is IEEE-754 binary64; [SpecFloat] gives its
    arithmetic. *)
Module Float64.

Definition float := spec_float.
Definition prec : Z := 53.
Definition emax : Z := 1024.
Definition add : float -> float -> float := SFadd prec emax.
Definition sub : float -> float -> float := SFsub prec emax.
Definition neg : float -> float := SFopp.

(** [1.0] and [3.0], the default weights. *)
Definition one : float := S754_finite false 4503599627370496 (-52).
Definition three : float := S754_finite false 6755399441055744 (-51).

End Float64.

Import Float64.

Record score_result := ScoreResult { score : float; acc : bool; pred : pystr }.

(** [ground_truth] is a [str] or a sequence of [str]. *)
Inductive ground_truth := GtStr (s : pystr) | GtSeq (l : list pystr).

(** The status tags: [❌] is U+274C and [✅] is U+2705. *)
Definition tag_bad_format : pystr := lit "[" ++ [10060%N] ++ lit "Format]".
Definition tag_good_node : pystr :=
  lit "[" ++ [9989%N] ++ lit "Format" ++ [9989%N] ++ lit "Node]".
Definition tag_bad_node : pystr :=
  lit "[" ++ [9989%N] ++ lit "Format" ++ [10060%N] ++ lit "Node]".

(** A value placed in an f-string: [None] prints as its name. *)
Definition fmt (v : option pystr) : pystr :=
  match v with Some s => s | None => lit "None" end.

Definition template (tag : pystr) (intent node reason : option pystr) : pystr :=
  tag ++ lit "Intent: " ++ fmt intent ++ [10%N] ++ lit "Node: " ++ fmt node
      ++ [10%N] ++ lit "Reason: " ++ fmt reason.

(** The sequence the loop over [ground_truth] runs through. *)
Definition gt_items (gt : ground_truth) : list pystr :=
  match gt with
  | GtStr s => split 44%N s
  | GtSeq l => l
  end.

Section Scorer.

(** [str.lower()] depends on the Unicode case tables and on context (the
    final sigma), so it is taken as it comes. *)
Variable str_lower : pystr -> pystr.

Definition add_all (true_nodes : gset pystr) (items : list pystr) : gset pystr :=
  foldl (fun nodes i_node => nodes ∪ {[ str_lower (strip i_node) ]})
        true_nodes items.

(** [None] stands for the [AttributeError] that [node.lower()] raises on
    a [node] that is [None]. *)
Definition compute_score (solution_str : pystr) (gt : ground_truth)
    (std_format std_acc : float) : option score_result :=
  match validate_and_extract_llm_content solution_str with
  | (false, _, _, _) =>
      let format_score := neg std_format in
      let acc_score := neg std_acc in
      Some (ScoreResult (add acc_score format_score) false
                        (tag_bad_format ++ solution_str))
  | (true, intent, node, reason) =>
      let true_nodes := add_all ∅ (gt_items gt) in
      match node with
      | None => None
      | Some node_text =>
          let '(acc_score, acc, pred) :=
            if bool_decide (str_lower node_text ∈ true_nodes)
            then (std_acc, true, template tag_good_node intent node reason)
            else (neg std_acc, false, template tag_bad_node intent node reason) in
          let format_score := std_format in
          Some (ScoreResult (add acc_score format_score) acc pred)
      end
  end.

(** The set of trimmed, lower-cased candidates of a ground truth. *)
Definition candidates (gt : ground_truth) : gset pystr :=
  list_to_set ((fun g => str_lower (strip g)) <$> gt_items gt).

End Scorer.

(** [str.lower()] on ASCII text. *)
Definition lower_ascii (s : pystr) : pystr := map ascii_lower s.

(** ** Vocabulary of the properties *)

(** [x] is the word [w] up to letter case, as the matcher compares. *)
Definition ci (w x : pystr) : Prop :=
  Forall2 (fun p c => lit_ignorecase p c = true) w x.

Definition intent_label : pystr := lit "Intent:".
Definition node_label : pystr := lit "Node:".
Definition reason_label : pystr := lit "Reason:".

Definition is_label (w : pystr) : Prop :=
  w = intent_label \/ w = node_label \/ w = reason_label.

(** The label [w] stands at position [k] of [s]. *)
Definition label_at (w s : pystr) (k : nat) : Prop :=
  ci w (take (length w) (drop k s)).

Definition occurs (w s : pystr) : Prop := exists k, label_at w s k.

(** The three labels occur one after the other, without overlap. *)
Definition in_order (s : pystr) : Prop :=
  exists i j k,
    label_at intent_label s i /\ label_at node_label s j
    /\ label_at reason_label s k
    /\ i + length intent_label <= j /\ j + length node_label <= k.

#[global] Instance ci_dec w x : Decision (ci w x).
Proof. unfold ci. apply _. Defined.

#[global] Instance label_at_dec w s k : Decision (label_at w s k).
Proof. unfold label_at. apply _. Defined.

(** All positions of [s] at which the label [w] stands. *)
Definition positions (w s : pystr) : list nat :=
  filter (fun k => label_at w s k) (seq 0 (S (length s))).

Definition in_orderb (s : pystr) : bool :=
  existsb (fun i =>
    existsb (fun j =>
      existsb (fun k =>
        (i + length intent_label <=? j) && (j + length node_label <=? k))
        (positions reason_label s))
      (positions node_label s))
    (positions intent_label s).

(** The text as the matcher sees it. *)
Definition normalise (content : pystr) : pystr := sub_spaces (strip content).

(** The same character, or the two cases of one ASCII letter. *)
Definition same_letter (x y : char) : Prop := ascii_lower x = ascii_lower y.

(** [s'] is [s] with the case of some ASCII letters changed. *)
Definition recased (s s' : pystr) : Prop :=
  map ascii_lower s = map ascii_lower s'.

(** The stretches of a match outside its three fields: each holds one
    label and the whitespace around it. *)
Definition label_zone (m : match_obj) (i : nat) : bool :=
  match span m Gintent, span m Gnode, span m Greason with
  | Some (s1, e1), Some (s2, e2), Some (s3, _) =>
      ((m_start m <=? i) && (i <? s1)) || ((e1 <=? i) && (i <? s2))
      || ((e2 <=? i) && (i <? s3))
  | _, _, _ => false
  end.

Fixpoint agree_outside (zone : nat -> bool) (i : nat) (c c' : pystr) : bool :=
  match c, c' with
  | [], [] => true
  | x :: c1, y :: c1' =>
      (N.eqb x y || zone i) && agree_outside zone (S i) c1 c1'
  | _, _ => false
  end.

(** Between the normalised texts [c] and [c'], only characters of the
    labels that the matcher recognises in [c] differ. *)
Definition only_labels_differ (c c' : pystr) : bool :=
  match search pattern c with
  | Some m => agree_outside (label_zone m) 0 c c'
  | None => true
  end.

(** Whitespace of a field value: single plain spaces, none at the ends. *)
Definition plain_spaces (f : pystr) : Prop :=
  forall x, x ∈ f -> is_space x = true -> x = 32%N.

Definition no_space_run (f : pystr) : Prop :=
  forall j x y, f !! j = Some x -> f !! S j = Some y ->
                ~ (is_space x = true /\ is_space y = true).

Definition no_outer_space (f : pystr) : Prop :=
  (forall x, head f = Some x -> is_space x = false)
  /\ (forall x, last f = Some x -> is_space x = false).

(** Helpers of the proofs: a run of whitespace, and text in which every
    whitespace character is a single plain space ([after_space] tells that
    the character before was one). *)
Definition all_space (l : pystr) : Prop := Forall (fun c => is_space c = true) l.

Definition no_space (l : pystr) : Prop := Forall (fun c => is_space c = false) l.

Fixpoint tidy (after_space : bool) (l : pystr) : bool :=
  match l with
  | [] => true
  | c :: l' =>
      if is_space c then N.eqb c 32 && negb after_space && tidy true l'
      else tidy false l'
  end.

(** A continuation that does not see the case of letters. *)
Definition stable (k : cont) : Prop :=
  forall pos rest rest' mk,
    Forall2 same_letter rest rest' -> k pos rest mk = k pos rest' mk.

(** Moving a match [d] characters to the right. *)
Definition shift_marks (d : nat) (mk : marks) : marks :=
  map (fun '(g, o, p) => (g, o, d + p)) mk.

Definition shift_result (d : nat) (r : option (nat * marks)) : option (nat * marks) :=
  match r with
  | Some (e, mk) => Some (d + e, shift_marks d mk)
  | None => None
  end.

Definition shift_match (d : nat) (m : match_obj) : match_obj :=
  MatchObj (d + m_start m) (d + m_end m) (shift_marks d (m_marks m)).

Definition shiftable (k : cont) : Prop :=
  forall d pos rest mk,
    k (d + pos) rest (shift_marks d mk) = shift_result d (k pos rest mk).

(** The literal word [w], ignoring case, at the head of [rest]: what is
    left after it. *)
Fixpoint ci_strip (w rest : pystr) : option pystr :=
  match w, rest with
  | [], _ => Some rest
  | p :: w', x :: rest' =>
      if lit_ignorecase p x then ci_strip w' rest' else None
  | _ :: _, [] => None
  end.

(** The anatomy of a match of [pattern]: the text before it, then each
    label, the whitespace after it, the field and the whitespace after
    the field. *)
Record anatomy := Anatomy {
  a_before : pystr;
  a_intent_label : pystr; a_gap1 : pystr; a_intent : pystr; a_gap2 : pystr;
  a_node_label : pystr; a_gap3 : pystr; a_node : pystr; a_gap4 : pystr;
  a_reason_label : pystr; a_gap5 : pystr; a_reason : pystr }.

Definition text_of (a : anatomy) : pystr :=
  a_before a ++ a_intent_label a ++ a_gap1 a ++ a_intent a ++ a_gap2 a
  ++ a_node_label a ++ a_gap3 a ++ a_node a ++ a_gap4 a
  ++ a_reason_label a ++ a_gap5 a ++ a_reason a.

Definition well_formed (a : anatomy) : Prop :=
  ci intent_label (a_intent_label a) /\ ci node_label (a_node_label a)
  /\ ci reason_label (a_reason_label a)
  /\ all_space (a_gap1 a) /\ all_space (a_gap2 a) /\ all_space (a_gap3 a)
  /\ all_space (a_gap4 a) /\ all_space (a_gap5 a)
  /\ a_intent a <> [] /\ a_node a <> [] /\ a_reason a <> [].

(** Where the parts of an anatomy start. *)
Definition intent_start (a : anatomy) : nat :=
  length (a_before a) + length (a_intent_label a) + length (a_gap1 a).
Definition node_start (a : anatomy) : nat :=
  intent_start a + length (a_intent a) + length (a_gap2 a)
  + length (a_node_label a) + length (a_gap3 a).
Definition reason_start (a : anatomy) : nat :=
  node_start a + length (a_node a) + length (a_gap4 a)
  + length (a_reason_label a) + length (a_gap5 a).

(** The match object that reads the text along the anatomy [a]. *)
Definition reads (m : match_obj) (a : anatomy) : Prop :=
  m_start m = length (a_before a)
  /\ span m Gintent = Some (intent_start a, intent_start a + length (a_intent a))
  /\ span m Gnode = Some (node_start a, node_start a + length (a_node a))
  /\ span m Greason = Some (reason_start a, reason_start a + length (a_reason a)).

(** [",".join(pieces)] *)
Fixpoint join_comma (pieces : list pystr) : pystr :=
  match pieces with
  | [] => []
  | [p] => p
  | p :: rest => p ++ 44%N :: join_comma rest
  end.

(** * Facts about the string operations *)

Module PyStrFacts.

Lemma lstrip_spaces l s : all_space l -> lstrip (l ++ s) = lstrip s.
Proof.
  induction 1 as [|c l Hc _ IH]; simpl; [done|]. by rewrite Hc.
Qed.

Lemma lstrip_split s : exists l, s = l ++ lstrip s /\ all_space l.
Proof.
  induction s as [|c s [l [Hs Hl]]]; simpl.
  - exists []. split; [done | constructor].
  - destruct (is_space c) eqn:Hc.
    + exists (c :: l). split; [simpl; congruence | by constructor].
    + exists []. split; [done | constructor].
Qed.

Lemma lstrip_head s c t : lstrip s = c :: t -> is_space c = false.
Proof.
  induction s as [|x s IH]; simpl; [done|].
  destruct (is_space x) eqn:Hx; [done|]. congruence.
Qed.

Lemma lstrip_fixed c s : is_space c = false -> lstrip (c :: s) = c :: s.
Proof. intros H. simpl. by rewrite H. Qed.

Lemma lstrip_app_keep a b : lstrip a <> [] -> lstrip (a ++ b) = lstrip a ++ b.
Proof.
  induction a as [|c a IH]; simpl; [done|].
  destruct (is_space c); [done|]. by intros _.
Qed.

Lemma rstrip_split s : exists r, s = rstrip s ++ r /\ all_space r.
Proof.
  induction s as [|c s [r [Hs Hr]]]; simpl.
  - exists []. split; [done | constructor].
  - destruct (rstrip s) as [|y t] eqn:Ht.
    + destruct (is_space c) eqn:Hc.
      * exists (c :: r). simpl in Hs. subst s. split; [done | by constructor].
      * exists r. simpl in *. split; [congruence | done].
    + exists r. split; [|done]. simpl in *. congruence.
Qed.

Lemma rstrip_last s t c : rstrip s = t ++ [c] -> is_space c = false.
Proof.
  revert t. induction s as [|x s IH]; intros t; simpl.
  - by destruct t.
  - destruct (rstrip s) as [|y u] eqn:Hu.
    + destruct (is_space x) eqn:Hx; [by destruct t|].
      destruct t as [|? [|? ?]]; simpl; intros [= <- ]; done.
    + destruct t as [|z t]; simpl; [by intros [= ]|].
      intros [= _ Ht]. by apply (IH t).
Qed.

Lemma rstrip_cons_keep c s : is_space c = false -> rstrip (c :: s) = c :: rstrip s.
Proof. intros H. simpl. destruct (rstrip s); [by rewrite H | done]. Qed.

Lemma rstrip_app_keep a b : rstrip b <> [] -> rstrip (a ++ b) = a ++ rstrip b.
Proof.
  intros Hb. induction a as [|c a IH]; simpl; [done|].
  rewrite IH. destruct (a ++ rstrip b) eqn:E; [|done].
  by destruct a, (rstrip b).
Qed.

Lemma rstrip_fixed s c : is_space c = false -> rstrip (s ++ [c]) = s ++ [c].
Proof.
  intros H. rewrite rstrip_app_keep; simpl; rewrite H; done.
Qed.

Lemma strip_split s : exists l r, s = l ++ strip s ++ r /\ all_space l /\ all_space r.
Proof.
  destruct (lstrip_split s) as [l [Hl Hls]].
  destruct (rstrip_split (lstrip s)) as [r [Hr Hrs]].
  exists l, r. unfold strip. rewrite <- Hr. done.
Qed.

Lemma strip_no_outer_space s : no_outer_space (strip s).
Proof.
  unfold strip, no_outer_space. split; intros x Hx.
  - destruct (lstrip s) as [|c t] eqn:E; [done|].
    pose proof (lstrip_head _ _ _ E) as Hc.
    rewrite rstrip_cons_keep in Hx by done. simpl in Hx. congruence.
  - destruct (rstrip (lstrip s)) as [|y u] eqn:E using rev_ind; [done|].
    rewrite last_snoc in Hx. injection Hx as <-.
    eapply rstrip_last. exact E.
Qed.

(** *** Whitespace substitution *)

Lemma sub_spaces_from_app b q c u :
  is_space c = false ->
  sub_spaces_from b (q ++ c :: u)
  = sub_spaces_from b q ++ c :: sub_spaces_from false u.
Proof.
  intros Hc. revert b. induction q as [|x q IH]; intros b; simpl.
  - by rewrite Hc.
  - destruct (is_space x), b; simpl; by rewrite IH.
Qed.

Lemma is_space_32 : is_space 32%N = true.
Proof. reflexivity. Qed.

Lemma tidy_sub_spaces b s : tidy b (sub_spaces_from b s) = true.
Proof.
  revert b. induction s as [|c s IH]; intros b; simpl; [done|].
  destruct (is_space c) eqn:Hc; [destruct b|]; simpl.
  - apply IH.
  - apply IH.
  - rewrite Hc. apply IH.
Qed.

Lemma tidy_weaken b l : tidy b l = true -> tidy false l = true.
Proof.
  destruct l as [|c l]; simpl; [done|].
  destruct (is_space c); [|done].
  rewrite !andb_true_iff. intros [[H1 _] H2]. by rewrite H1, H2.
Qed.

Lemma tidy_app b x y :
  tidy b (x ++ y) = true -> tidy b x = true /\ tidy false y = true.
Proof.
  revert b. induction x as [|c x IH]; intros b; simpl.
  - intros H. split; [done | by eapply tidy_weaken].
  - destruct (is_space c).
    + rewrite !andb_true_iff. intros [H1 H2].
      destruct (IH _ H2) as [H3 H4]. by rewrite H3.
    + apply IH.
Qed.

Lemma tidy_slice l a b : tidy false l = true -> tidy false (slice l a b) = true.
Proof.
  intros H. unfold slice.
  rewrite <- (take_drop a l) in H. apply tidy_app in H as [_ H].
  rewrite <- (take_drop (b - a) (drop a l)) in H. by apply tidy_app in H as [H _].
Qed.

Lemma tidy_strip l : tidy false l = true -> tidy false (strip l) = true.
Proof.
  intros H. destruct (strip_split l) as [x [y [E _]]].
  rewrite E in H. apply tidy_app in H as [_ H]. by apply tidy_app in H as [H _].
Qed.

Lemma tidy_plain b f : tidy b f = true -> plain_spaces f.
Proof.
  revert b. induction f as [|c f IH]; intros b H x Hx Hs.
  - by apply elem_of_nil in Hx.
  - simpl in H. apply elem_of_cons in Hx as [->|Hx].
    + rewrite Hs in H. rewrite !andb_true_iff in H.
      destruct H as [[H _] _]. by apply N.eqb_eq in H.
    + destruct (is_space c).
      * rewrite !andb_true_iff in H. destruct H as [_ H]. by eapply IH.
      * by eapply IH.
Qed.

Lemma tidy_no_run b f : tidy b f = true -> no_space_run f.
Proof.
  revert b. induction f as [|c f IH]; intros b H j x y Hx Hy [Sx Sy]; [done|].
  simpl in H. destruct j as [|j]; simpl in Hx, Hy.
  - injection Hx as ->. rewrite Sx in H.
    rewrite !andb_true_iff in H. destruct H as [_ H].
    destruct f as [|z f]; [done|]. simpl in Hy. injection Hy as ->.
    simpl in H. rewrite Sy in H. simpl in H. by rewrite andb_false_r in H.
  - destruct (is_space c).
    + rewrite !andb_true_iff in H. destruct H as [_ H]. by eapply (IH _ H j x y).
    + by eapply (IH _ H j x y).
Qed.

(** A stretch without whitespace that shows in the substituted text
    stood in the text before substitution, and so did what follows it. *)
Lemma sub_spaces_prefix L s y :
  no_space L -> sub_spaces_from false s = L ++ y ->
  exists y', s = L ++ y' /\ sub_spaces_from false y' = y.
Proof.
  intros HL. revert s. induction HL as [|l L Hl _ IH]; intros s; simpl.
  - intros <-. by exists s.
  - destruct s as [|c s]; simpl; [done|].
    destruct (is_space c) eqn:Hc.
    + intros [= <- _]. by rewrite is_space_32 in Hl.
    + intros [= -> H]. destruct (IH _ H) as [y' [-> <-]]. by exists y'.
Qed.

Lemma sub_spaces_find b s x L y :
  L <> [] -> no_space L -> sub_spaces_from b s = x ++ L ++ y ->
  exists x' y', s = x' ++ L ++ y' /\ sub_spaces_from false y' = y.
Proof.
  intros Hne HL. revert b x. induction s as [|c s IH]; intros b x; simpl.
  - by destruct x, L.
  - destruct (is_space c) eqn:Hc; [destruct b|].
    + intros H. destruct (IH _ _ H) as [x' [y' [-> <-]]]. by exists (c :: x'), y'.
    + destruct x as [|x0 x]; simpl.
      * destruct HL as [|l L Hl _]; [done|]. intros [= <- _].
        by rewrite is_space_32 in Hl.
      * intros [= _ H]. destruct (IH _ _ H) as [x' [y' [-> <-]]].
        by exists (c :: x'), y'.
    + destruct x as [|x0 x]; simpl.
      * destruct HL as [|l L Hl HL]; [done|]. simpl. intros [= -> H].
        destruct (sub_spaces_prefix _ _ _ HL H) as [y' [-> <-]].
        by exists [], y'.
      * intros [= _ H]. destruct (IH _ _ H) as [x' [y' [-> <-]]].
        by exists (c :: x'), y'.
Qed.

Lemma normalise_no_outer_space s : no_outer_space (normalise s).
Proof.
  unfold normalise. destruct (strip_no_outer_space s) as [Hh Hl].
  unfold sub_spaces. split; intros x Hx.
  - destruct (strip s) as [|c t]; [done|]. simpl in *.
    rewrite (Hh c eq_refl) in Hx. simpl in Hx. injection Hx as <-. by apply Hh.
  - destruct (strip s) as [|c t _] using rev_ind; [done|].
    rewrite last_snoc in Hl. pose proof (Hl c eq_refl) as Hc.
    rewrite (sub_spaces_from_app false t c [] Hc) in Hx. simpl in Hx.
    rewrite last_snoc in Hx. by injection Hx as <-.
Qed.

Lemma tidy_normalise s : tidy false (normalise s) = true.
Proof. apply tidy_sub_spaces. Qed.

Lemma all_space_sub_spaces b l : all_space l -> all_space (sub_spaces_from b l).
Proof.
  intros H. revert b. induction H as [|c l Hc _ IH]; intros b; simpl; [constructor|].
  rewrite Hc. destruct b; [apply IH|]. constructor; [apply is_space_32 | apply IH].
Qed.

Lemma sub_spaces_lstrip y :
  sub_spaces_from false (lstrip y) = lstrip (sub_spaces_from false y).
Proof.
  destruct (lstrip_split y) as (l & Hy & Hl).
  destruct (lstrip y) as [|c t] eqn:E.
  - rewrite app_nil_r in Hy. subst l.
    pose proof (all_space_sub_spaces false y Hl) as H.
    rewrite <- (app_nil_r (sub_spaces_from false y)). by rewrite lstrip_spaces.
  - pose proof (lstrip_head _ _ _ E) as Hc. rewrite Hy.
    rewrite sub_spaces_from_app by done.
    rewrite lstrip_spaces by by apply all_space_sub_spaces.
    simpl. by rewrite !Hc.
Qed.

Lemma rstrip_spaces u r : all_space r -> rstrip (u ++ r) = rstrip u.
Proof.
  intros Hr. assert (E : rstrip r = []).
  { induction Hr as [|c r Hc _ IH]; simpl; [done|]. by rewrite IH, Hc. }
  induction u as [|c u IH]; simpl; [done|]. by rewrite IH.
Qed.

(** A stretch of the substituted text that does not end in whitespace is
    the substitution of a stretch of the text. *)
Lemma sub_spaces_segment b s f v :
  sub_spaces_from b s = f ++ v ->
  (forall x, last f = Some x -> is_space x = false) ->
  exists seg y, s = seg ++ y /\ sub_spaces_from b seg = f.
Proof.
  revert b f. induction s as [|c s IH]; intros b f.
  - intros H _. exists [], []. destruct f; [done | discriminate].
  - destruct f as [|f0 f]; [by exists [], (c :: s)|].
    simpl. destruct (is_space c) eqn:Hc; [destruct b|].
    + intros H Hlast. destruct (IH true (f0 :: f) H Hlast) as (seg & y & -> & E).
      exists (c :: seg), y. simpl. by rewrite Hc.
    + intros [= <- H] Hlast.
      assert (Hlast' : forall x, last f = Some x -> is_space x = false).
      { intros x Hx. apply Hlast. rewrite last_cons, Hx. done. }
      destruct f as [|f1 f].
      { pose proof (Hlast 32%N eq_refl) as H32. by rewrite is_space_32 in H32. }
      destruct (IH true (f1 :: f) H Hlast') as (seg & y & -> & E).
      exists (c :: seg), y. simpl. by rewrite Hc, E.
    + intros [= <- H] Hlast.
      assert (Hlast' : forall x, last f = Some x -> is_space x = false).
      { intros x Hx. apply Hlast. rewrite last_cons, Hx. done. }
      destruct (IH false f H Hlast') as (seg & y & -> & E).
      exists (c :: seg), y. simpl. by rewrite Hc, E.
Qed.

(** A stretch of the normalised text that neither starts nor ends with
    whitespace is a stretch of the input with its runs of whitespace
    replaced by single spaces. *)
Lemma normalise_segment content u f v :
  normalise content = u ++ f ++ v -> no_outer_space f ->
  exists x seg y, content = x ++ seg ++ y /\ f = sub_spaces seg.
Proof.
  intros H [Hhead Hlast]. destruct (strip_split content) as (l & r & Hc & _).
  destruct f as [|c0 f].
  { exists [], [], content. done. }
  pose proof (Hhead c0 eq_refl) as Hc0.
  unfold normalise, sub_spaces in H.
  apply (sub_spaces_find false _ u [c0] (f ++ v)) in H as (x' & y' & Hs & H);
    [|done | by repeat constructor].
  apply sub_spaces_segment in H as (seg & y & -> & E).
  - exists (l ++ x'), (c0 :: seg), (y ++ r). split.
    + rewrite Hc, Hs. by rewrite <- !app_assoc.
    + unfold sub_spaces. simpl. by rewrite Hc0, E.
  - intros x Hx. apply Hlast. rewrite last_cons, Hx. done.
Qed.

(** *** Changing the case of letters *)

Lemma not_space_range c : (33 <= c < 133)%N -> is_space c = false.
Proof.
  intros H. unfold is_space.
  repeat match goal with
         | |- context [N.leb ?a ?b] => destruct (N.leb_spec a b); try lia
         | |- context [N.eqb ?a ?b] => destruct (N.eqb_spec a b); try lia
         end; reflexivity.
Qed.

Lemma same_letter_cases x y :
  same_letter x y ->
  x = y \/ ((65 <= x <= 122)%N /\ (65 <= y <= 122)%N).
Proof.
  unfold same_letter, ascii_lower.
  repeat match goal with
         | |- context [N.leb ?a ?b] => destruct (N.leb_spec a b)
         end; simpl; lia.
Qed.

Lemma same_letter_space x y : same_letter x y -> is_space x = is_space y.
Proof.
  intros H. destruct (same_letter_cases _ _ H) as [->|[Hx Hy]]; [done|].
  rewrite !not_space_range; [done | lia | lia].
Qed.

Lemma same_letter_refl x : same_letter x x.
Proof. reflexivity. Qed.

Lemma recased_Forall2 s s' : recased s s' <-> Forall2 same_letter s s'.
Proof.
  unfold recased. split.
  - revert s'. induction s as [|x s IH]; intros [|y s']; simpl; try done.
    intros [= H1 H2]. constructor; [done | by apply IH].
  - induction 1 as [|x y s s' H _ IH]; simpl; [done|]. by rewrite H, IH.
Qed.

Lemma lstrip_recased s s' :
  Forall2 same_letter s s' -> Forall2 same_letter (lstrip s) (lstrip s').
Proof.
  induction 1 as [|x y s s' H Hs IH]; simpl; [constructor|].
  rewrite <- (same_letter_space _ _ H).
  destruct (is_space x); [done | by constructor].
Qed.

Lemma rstrip_recased s s' :
  Forall2 same_letter s s' -> Forall2 same_letter (rstrip s) (rstrip s').
Proof.
  induction 1 as [|x y s s' H Hs IH]; simpl; [constructor|].
  rewrite <- (same_letter_space _ _ H).
  destruct IH as [|? ? ? ? ? ?].
  - destruct (is_space x); by repeat constructor.
  - by repeat constructor.
Qed.

Lemma sub_spaces_recased b s s' :
  Forall2 same_letter s s' ->
  Forall2 same_letter (sub_spaces_from b s) (sub_spaces_from b s').
Proof.
  intros H. revert b. induction H as [|x y s s' H Hs IH]; intros b; simpl.
  - constructor.
  - rewrite <- (same_letter_space _ _ H).
    destruct (is_space x); [destruct b|]; try constructor; auto using same_letter_refl.
Qed.

Lemma normalise_recased s s' :
  recased s s' -> Forall2 same_letter (normalise s) (normalise s').
Proof.
  intros H. apply sub_spaces_recased, rstrip_recased, lstrip_recased.
  by apply recased_Forall2.
Qed.

End PyStrFacts.

(** * Facts about the matcher *)

Module SreFacts.

Import PyStrFacts.

(** *** The matcher does not see the case of ASCII letters *)

Lemma lit_ignorecase_same_letter p x y :
  same_letter x y -> lit_ignorecase p x = lit_ignorecase p y.
Proof.
  intros H. destruct (same_letter_cases _ _ H) as [->|[Hx Hy]]; [done|].
  unfold same_letter in H. unfold lit_ignorecase. rewrite H.
  repeat match goal with
         | |- context [N.eqb x ?b] => destruct (N.eqb_spec x b); try lia
         | |- context [N.eqb y ?b] => destruct (N.eqb_spec y b); try lia
         end.
  reflexivity.
Qed.

Lemma in_cset_same_letter k x y : same_letter x y -> in_cset k x = in_cset k y.
Proof.
  intros H. destruct k; simpl.
  - by apply lit_ignorecase_same_letter.
  - by apply same_letter_space.
  - done.
Qed.

Lemma rep_greedy_stable k min kont : stable kont -> stable (rep_greedy k min kont).
Proof.
  intros Hk pos rest rest' mk H. revert min pos.
  induction H as [|x y r r' Hxy Hr IH]; intros min pos; simpl.
  - destruct min; [apply Hk; constructor | done].
  - rewrite <- (in_cset_same_letter k _ _ Hxy), IH.
    destruct min; [|done]. by rewrite (Hk pos (x :: r) (y :: r')); [|constructor].
Qed.

Lemma rep_lazy_stable k min kont : stable kont -> stable (rep_lazy k min kont).
Proof.
  intros Hk pos rest rest' mk H. revert min pos.
  induction H as [|x y r r' Hxy Hr IH]; intros min pos.
  - done.
  - destruct min; simpl;
      rewrite <- (in_cset_same_letter k _ _ Hxy), IH; [|done].
    by rewrite (Hk pos (x :: r) (y :: r')); [|constructor].
Qed.

Lemma at_end_recased rest rest' :
  Forall2 same_letter rest rest' -> at_end rest = at_end rest'.
Proof.
  destruct 1 as [|x y r r' Hxy Hr]; [done|]. destruct Hr; [|done]. simpl.
  destruct (same_letter_cases _ _ Hxy) as [->|[Hx Hy]]; [done|].
  destruct (N.eqb_spec x 10), (N.eqb_spec y 10); lia || done.
Qed.

Lemma step_stable o kont : stable kont -> stable (step o kont).
Proof.
  intros Hk. destruct o as [k|k min [|]|g|g|]; simpl.
  - intros pos rest rest' mk [|x y r r' Hxy Hr]; [done|].
    rewrite <- (in_cset_same_letter k _ _ Hxy). destruct (in_cset k x); [|done].
    by apply Hk.
  - by apply rep_greedy_stable.
  - by apply rep_lazy_stable.
  - intros pos rest rest' mk H. by apply Hk.
  - intros pos rest rest' mk H. by apply Hk.
  - intros pos rest rest' mk H. rewrite <- (at_end_recased _ _ H).
    destruct (at_end rest); [by apply Hk | done].
Qed.

Lemma exec_stable p : stable (exec p).
Proof.
  induction p as [|o p IH]; simpl; [done | by apply step_stable].
Qed.

Lemma search_from_recased p pos rest rest' :
  Forall2 same_letter rest rest' -> search_from p pos rest = search_from p pos rest'.
Proof.
  intros H. revert pos. induction H as [|x y r r' Hxy Hr IH]; intros pos; simpl.
  - done.
  - rewrite (exec_stable p pos (x :: r) (y :: r')) by by constructor.
    by rewrite IH.
Qed.

Lemma search_recased p c c' :
  Forall2 same_letter c c' -> search p c = search p c'.
Proof. apply search_from_recased. Qed.

(** *** Moving a match to the right *)

Lemma rep_greedy_shiftable k min kont :
  shiftable kont -> shiftable (rep_greedy k min kont).
Proof.
  intros Hk d pos rest mk. revert min pos.
  induction rest as [|x r IH]; intros min pos; simpl.
  - destruct min; [apply Hk | done].
  - destruct (in_cset k x).
    + replace (S (d + pos)) with (d + S pos) by lia. rewrite IH.
      destruct (rep_greedy k (Nat.pred min) kont (S pos) r mk) as [[e m']|]; [done|].
      destruct min; [apply Hk | done].
    + destruct min; [apply Hk | done].
Qed.

Lemma rep_lazy_shiftable k min kont :
  shiftable kont -> shiftable (rep_lazy k min kont).
Proof.
  intros Hk d pos rest mk. revert min pos.
  induction rest as [|x r IH]; intros min pos.
  - destruct min; simpl; [|done]. rewrite Hk. by destruct (kont pos [] mk) as [[? ?]|].
  - destruct min; simpl.
    + rewrite Hk. destruct (kont pos (x :: r) mk) as [[e m']|]; [done|]. simpl.
      destruct (in_cset k x); [|done].
      replace (S (d + pos)) with (d + S pos) by lia. apply IH.
    + destruct (in_cset k x); [|done].
      replace (S (d + pos)) with (d + S pos) by lia. apply IH.
Qed.

Lemma step_shiftable o kont : shiftable kont -> shiftable (step o kont).
Proof.
  intros Hk. destruct o as [k|k min [|]|g|g|]; simpl.
  - intros d pos [|x r] mk; [done|]. destruct (in_cset k x); [|done].
    replace (S (d + pos)) with (d + S pos) by lia. apply Hk.
  - by apply rep_greedy_shiftable.
  - by apply rep_lazy_shiftable.
  - intros d pos rest mk. apply (Hk d pos rest ((g, true, pos) :: mk)).
  - intros d pos rest mk. apply (Hk d pos rest ((g, false, pos) :: mk)).
  - intros d pos rest mk. destruct (at_end rest); [apply Hk | done].
Qed.

Lemma exec_shiftable p : shiftable (exec p).
Proof.
  induction p as [|o p IH]; simpl; [done | by apply step_shiftable].
Qed.

Lemma search_from_shift p d pos rest :
  search_from p (d + pos) rest = shift_match d <$> search_from p pos rest.
Proof.
  revert pos. induction rest as [|x r IH]; intros pos; simpl;
    rewrite (exec_shiftable p d pos _ []);
    destruct (exec p pos _ []) as [[e m']|]; simpl; try done.
  replace (S (d + pos)) with (d + S pos) by lia. apply IH.
Qed.

Lemma mark_of_shift g o d mk :
  mark_of g o (shift_marks d mk) = (fun p => d + p) <$> mark_of g o mk.
Proof.
  induction mk as [|[[g' o'] p] mk IH]; simpl; [done|].
  destruct (decide (g' = g /\ o' = o)); [done | apply IH].
Qed.

Lemma span_shift d m g :
  span (shift_match d m) g = (fun '(a, b) => (d + a, d + b)) <$> span m g.
Proof.
  unfold span. simpl. rewrite !mark_of_shift.
  destruct (mark_of g true (m_marks m)), (mark_of g false (m_marks m)); done.
Qed.

Lemma slice_shift x c a b :
  slice (x ++ c) (length x + a) (length x + b) = slice c a b.
Proof.
  unfold slice. rewrite drop_app_add. f_equal. lia.
Qed.

Lemma m_group_shift x c m g :
  m_group (x ++ c) (shift_match (length x) m) g = m_group c m g.
Proof.
  unfold m_group. rewrite span_shift.
  destruct (span m g) as [[a b]|]; simpl; [apply slice_shift | done].
Qed.

(** *** Literal words *)

Lemma exec_lits w p pos rest mk :
  exec (map (fun c => One (Lit c)) w ++ p) pos rest mk
  = match ci_strip w rest with
    | Some rest' => exec p (pos + length w) rest' mk
    | None => None
    end.
Proof.
  revert pos rest. induction w as [|c w IH]; intros pos rest; simpl.
  - by rewrite Nat.add_0_r.
  - destruct rest as [|x rest]; [done|]. destruct (lit_ignorecase c x); [|done].
    rewrite IH. by replace (S pos + length w) with (pos + S (length w)) by lia.
Qed.

Lemma ci_strip_spec w rest rest' :
  ci_strip w rest = Some rest' <-> exists x, rest = x ++ rest' /\ ci w x.
Proof.
  revert rest. induction w as [|c w IH]; intros rest; simpl.
  - split.
    + intros [= ->]. exists []. split; [done | constructor].
    + intros [x [-> H]]. by inversion H.
  - destruct rest as [|y rest].
    + split; [done|]. intros [x [E H]]. inversion H; subst. done.
    + destruct (lit_ignorecase c y) eqn:Hc.
      * rewrite IH. split.
        -- intros [x [-> H]]. exists (y :: x). split; [done | by constructor].
        -- intros [x [E H]]. inversion H; subst. injection E as -> ->. by eexists.
      * split; [done|]. intros [x [E H]]. inversion H; subst.
        injection E as -> ->. congruence.
Qed.

Lemma ci_length w x : ci w x -> length x = length w.
Proof. intros H. symmetry. by eapply Forall2_length. Qed.

(** *** What a repetition consumes *)

Lemma rep_greedy_sound k min kont pos rest mk r :
  rep_greedy k min kont pos rest mk = Some r ->
  exists x rest',
    rest = x ++ rest' /\ Forall (fun c => in_cset k c = true) x
    /\ min <= length x /\ kont (pos + length x) rest' mk = Some r.
Proof.
  assert (Hstop : forall min pos rest,
    match min with O => kont pos rest mk | S _ => None end = Some r ->
    exists x rest',
      rest = x ++ rest' /\ Forall (fun c => in_cset k c = true) x
      /\ min <= length x /\ kont (pos + length x) rest' mk = Some r).
  { intros [|n] p l H; [|done]. exists [], l. simpl.
    rewrite Nat.add_0_r. by repeat split. }
  revert min pos. induction rest as [|c rest IH]; intros min pos; simpl.
  - apply Hstop.
  - destruct (in_cset k c) eqn:Hc; [|apply Hstop].
    destruct (rep_greedy k (Nat.pred min) kont (S pos) rest mk) as [r'|] eqn:E;
      [|apply Hstop].
    intros [= ->]. destruct (IH _ _ E) as (x & rest' & -> & Hx & Hmin & HK).
    exists (c :: x), rest'. simpl. repeat split; [by constructor | lia |].
    by replace (pos + S (length x)) with (S pos + length x) by lia.
Qed.

Lemma rep_lazy_sound k min kont pos rest mk r :
  rep_lazy k min kont pos rest mk = Some r ->
  exists x rest',
    rest = x ++ rest' /\ Forall (fun c => in_cset k c = true) x
    /\ min <= length x /\ kont (pos + length x) rest' mk = Some r.
Proof.
  revert min pos. induction rest as [|c rest IH]; intros min pos.
  - destruct min; simpl; [|done].
    destruct (kont pos [] mk) as [r'|] eqn:E; [|done]. intros [= ->].
    exists [], []. simpl. rewrite Nat.add_0_r. by repeat split.
  - assert (Hmore :
      (if in_cset k c then rep_lazy k (Nat.pred min) kont (S pos) rest mk else None)
      = Some r ->
      exists x rest',
        c :: rest = x ++ rest' /\ Forall (fun c => in_cset k c = true) x
        /\ min <= length x /\ kont (pos + length x) rest' mk = Some r).
    { destruct (in_cset k c) eqn:Hc; [|done]. intros E.
      destruct (IH _ _ E) as (x & rest' & -> & Hx & Hmin & HK).
      exists (c :: x), rest'. simpl. repeat split; [by constructor | lia |].
      by replace (pos + S (length x)) with (S pos + length x) by lia. }
    destruct min; simpl; [|apply Hmore].
    destruct (kont pos (c :: rest) mk) as [r'|] eqn:E; [|apply Hmore].
    intros [= ->]. exists [], (c :: rest). simpl. rewrite Nat.add_0_r.
    by repeat split.
Qed.

(** The last field: [.+] takes everything that is left. *)
Lemma rep_greedy_any_all g pos rest mk :
  rep_greedy Any 0 (step (Close g) (step Eos accept)) pos rest mk
  = Some (pos + length rest, (g, false, pos + length rest) :: mk).
Proof.
  revert pos. induction rest as [|c rest IH]; intros pos; simpl.
  - by rewrite Nat.add_0_r.
  - rewrite IH. do 2 f_equal; [|do 2 f_equal]; lia.
Qed.

Lemma rep_greedy_any_plus g pos rest mk :
  rep_greedy Any 1 (step (Close g) (step Eos accept)) pos rest mk
  = match rest with
    | [] => None
    | _ => Some (pos + length rest, (g, false, pos + length rest) :: mk)
    end.
Proof.
  destruct rest as [|c rest]; [done|].
  cbn [rep_greedy in_cset Nat.pred]. rewrite rep_greedy_any_all.
  cbn [length]. do 2 f_equal; [|do 2 f_equal]; lia.
Qed.

(** *** Anatomy of a match *)

Lemma field_sound g K pos rest mk r :
  step spaces (step (Open g) (step (Rep Any 1 false)
    (step (Close g) (step spaces K)))) pos rest mk = Some r ->
  exists w1 a w2 rest',
    rest = w1 ++ a ++ w2 ++ rest' /\ all_space w1 /\ a <> [] /\ all_space w2
    /\ K (pos + length w1 + length a + length w2) rest'
         ((g, false, pos + length w1 + length a)
            :: (g, true, pos + length w1) :: mk) = Some r.
Proof.
  unfold spaces. cbn [step]. intros H.
  apply rep_greedy_sound in H as (w1 & r1 & -> & Hw1 & _ & H).
  apply rep_lazy_sound in H as (a & r2 & -> & _ & Ha & H).
  apply rep_greedy_sound in H as (w2 & r3 & -> & Hw2 & _ & H).
  exists w1, a, w2, r3. repeat split; try done.
  intros ->. simpl in Ha. lia.
Qed.

Lemma last_field_sound K g pos rest mk e mk' :
  K = step (Close g) (step Eos accept) ->
  step spaces (step (Open g) (step (Rep Any 1 true) K)) pos rest mk
  = Some (e, mk') ->
  exists w z,
    rest = w ++ z /\ all_space w /\ z <> []
    /\ e = pos + length w + length z
    /\ mk' = (g, false, pos + length w + length z)
               :: (g, true, pos + length w) :: mk.
Proof.
  intros HK. unfold spaces. cbn [step]. intros H.
  apply rep_greedy_sound in H as (w & z & -> & Hw & _ & H).
  cbv beta in H. subst K. rewrite rep_greedy_any_plus in H. destruct z as [|c z]; [done|].
  injection H as <- <-. by exists w, (c :: z).
Qed.

Lemma exec_pattern_sound pre rest e mk :
  exec pattern (length pre) rest [] = Some (e, mk) ->
  exists a,
    a_before a = pre /\ text_of a = pre ++ rest /\ well_formed a
    /\ reads (MatchObj (length pre) e mk) a.
Proof.
  unfold pattern, lits. intros H.
  rewrite exec_lits in H.
  destruct (ci_strip (lit "Intent:") rest) as [r1|] eqn:E1; [|done].
  apply ci_strip_spec in E1 as (I & -> & HI).
  cbn [app exec] in H.
  apply field_sound in H as (w1 & a & w2 & r2 & -> & Hw1 & Ha & Hw2 & H).
  rewrite exec_lits in H.
  destruct (ci_strip (lit "Node:") r2) as [r3|] eqn:E2; [|done].
  apply ci_strip_spec in E2 as (N & -> & HN).
  cbn [app exec] in H.
  apply field_sound in H as (w3 & b & w4 & r4 & -> & Hw3 & Hb & Hw4 & H).
  rewrite exec_lits in H.
  destruct (ci_strip (lit "Reason:") r4) as [r5|] eqn:E3; [|done].
  apply ci_strip_spec in E3 as (R & -> & HR).
  cbn [app exec] in H.
  eapply last_field_sound in H as (w5 & z & -> & Hw5 & Hz & -> & ->); [|done].
  exists (Anatomy pre I w1 a w2 N w3 b w4 R w5 z).
  split; [done|]. split; [done|]. split; [by repeat split|].
  unfold reads, span, intent_start, node_start, reason_start. cbn.
  rewrite (ci_length _ _ HI), (ci_length _ _ HN), (ci_length _ _ HR).
  repeat split; do 2 f_equal; cbn; lia.
Qed.

Lemma search_from_sound pre rest m :
  search_from pattern (length pre) rest = Some m ->
  exists a, text_of a = pre ++ rest /\ well_formed a /\ reads m a.
Proof.
  revert pre. induction rest as [|x rest IH]; intros pre; cbn [search_from].
  - destruct (exec pattern (length pre) [] []) as [[e mk]|] eqn:E; [|done].
    intros [= <-]. destruct (exec_pattern_sound _ _ _ _ E) as (a & _ & ? & ? & ?).
    by exists a.
  - destruct (exec pattern (length pre) (x :: rest) []) as [[e mk]|] eqn:E.
    + intros [= <-].
      destruct (exec_pattern_sound _ _ _ _ E) as (a & _ & ? & ? & ?).
      by exists a.
    + intros H. replace (S (length pre)) with (length (pre ++ [x])) in H
        by (rewrite length_app; simpl; lia).
      destruct (IH _ H) as (a & Ha & ? & ?). exists a.
      by rewrite Ha, <- app_assoc.
Qed.

(** Every match of the pattern reads the text along an anatomy. *)
Lemma search_sound c m :
  search pattern c = Some m ->
  exists a, text_of a = c /\ well_formed a /\ reads m a.
Proof. apply (search_from_sound []). Qed.

(** In particular every group takes part in the match. *)
Lemma search_spans c m g : search pattern c = Some m -> is_Some (span m g).
Proof.
  intros H. apply search_sound in H as (a & _ & _ & _ & H1 & H2 & H3).
  destruct g; by eexists.
Qed.

End SreFacts.

(** * Facts about the field extractor *)

Module ExtractorFacts.

Import PyStrFacts SreFacts.

(** *** Labels *)

Lemma lit_ignorecase_space p c :
  lit_ignorecase p c = true -> is_space p = false -> is_space c = false.
Proof.
  unfold lit_ignorecase. cbv zeta.
  repeat (rewrite orb_true_iff || rewrite andb_true_iff || rewrite N.eqb_eq).
  intros [[[H|[_ [->| ->]]]|[_ ->]]|[_ ->]] Hp; try reflexivity.
  by rewrite (same_letter_space c p H).
Qed.

Lemma ci_no_space w x : no_space w -> ci w x -> no_space x.
Proof.
  intros Hw H. induction H as [|p c w x Hpc _ IH]; [constructor|].
  inversion Hw; subst. constructor; [by eapply lit_ignorecase_space | by apply IH].
Qed.

Lemma ci_nonempty w x : w <> [] -> ci w x -> x <> [].
Proof. intros Hw H ->. by inversion H. Qed.

Lemma label_no_space w : is_label w -> no_space w.
Proof. intros [->|[->| ->]]; by repeat constructor. Qed.

Lemma label_nonempty w : is_label w -> w <> [].
Proof. by intros [->|[->| ->]]. Qed.

Lemma label_at_app w x I y : ci w I -> label_at w (x ++ I ++ y) (length x).
Proof.
  intros H. unfold label_at. rewrite drop_app_length.
  by rewrite take_app_length' by (symmetry; by apply ci_length).
Qed.

Lemma label_at_inv w s k :
  label_at w s k -> exists x I y, s = x ++ I ++ y /\ ci w I /\ length x = k \/ w = [].
Proof.
  intros H. destruct w as [|p w]; [exists [], [], []; by right|].
  exists (take k s), (take (length (p :: w)) (drop k s)),
         (drop (length (p :: w)) (drop k s)).
  left. split; [by rewrite !take_drop|]. split; [done|].
  apply length_take_le. destruct (decide (k <= length s)) as [|Hk]; [done|].
  unfold label_at in H. rewrite drop_ge in H by lia. by inversion H.
Qed.

Lemma label_at_bound w s k : w <> [] -> label_at w s k -> k < length s.
Proof.
  intros Hw H. destruct (decide (k < length s)) as [|Hk]; [done|].
  unfold label_at in H. rewrite drop_ge in H by lia.
  rewrite take_nil in H. inversion H. congruence.
Qed.

Lemma label_at_positions w s k : w <> [] -> label_at w s k <-> k ∈ positions w s.
Proof.
  intros Hw. unfold positions. rewrite list_elem_of_filter, elem_of_seq.
  split; [|tauto]. intros H. split; [done|].
  pose proof (label_at_bound _ _ _ Hw H). lia.
Qed.

Lemma in_orderb_spec s : in_order s <-> in_orderb s = true.
Proof.
  unfold in_order, in_orderb. split.
  - intros (i & j & k & Hi & Hj & Hk & Hij & Hjk).
    apply existsb_exists. exists i. split.
    { apply list_elem_of_In, label_at_positions; done. }
    apply existsb_exists. exists j. split.
    { apply list_elem_of_In, label_at_positions; done. }
    apply existsb_exists. exists k. split.
    { apply list_elem_of_In, label_at_positions; done. }
    apply andb_true_iff. split; apply Nat.leb_le; lia.
  - intros H. apply existsb_exists in H as (i & Hi & H).
    apply existsb_exists in H as (j & Hj & H).
    apply existsb_exists in H as (k & Hk & H).
    apply andb_true_iff in H as [H1 H2]. apply Nat.leb_le in H1, H2.
    exists i, j, k.
    repeat split; try lia; apply label_at_positions; try done;
      by apply list_elem_of_In.
Qed.

(** *** A match needs the three labels, in order *)

Ltac anatomy_simpl :=
  cbn [a_before a_intent_label a_gap1 a_intent a_gap2 a_node_label a_gap3
       a_node a_gap4 a_reason_label a_gap5 a_reason] in *.

Lemma label_found w I : is_label w -> ci w I -> I <> [] /\ no_space I.
Proof.
  intros Hw H. split.
  - eapply ci_nonempty; [|exact H]. by apply label_nonempty.
  - eapply ci_no_space; [|exact H]. by apply label_no_space.
Qed.

Lemma anatomy_in_order s a :
  well_formed a -> text_of a = normalise s -> in_order s.
Proof.
  intros (HI & HN & HR & _) E.
  destruct a as [pre I w1 fa w2 N w3 fb w4 R w5 z].
  unfold text_of in E. anatomy_simpl.
  destruct (label_found intent_label I) as [? ?]; [by left | done |].
  destruct (label_found node_label N) as [? ?]; [by right; left | done |].
  destruct (label_found reason_label R) as [? ?]; [by right; right | done |].
  unfold normalise, sub_spaces in E. symmetry in E.
  apply sub_spaces_find in E as (x1 & y1 & E & E1); [|done..].
  replace (w1 ++ fa ++ w2 ++ N ++ w3 ++ fb ++ w4 ++ R ++ w5 ++ z)
    with ((w1 ++ fa ++ w2) ++ N ++ (w3 ++ fb ++ w4 ++ R ++ w5 ++ z)) in E1
    by by rewrite <- !app_assoc.
  apply sub_spaces_find in E1 as (x2 & y2 & -> & E2); [|done..].
  replace (w3 ++ fb ++ w4 ++ R ++ w5 ++ z)
    with ((w3 ++ fb ++ w4) ++ R ++ (w5 ++ z)) in E2
    by by rewrite <- !app_assoc.
  apply sub_spaces_find in E2 as (x3 & y3 & -> & _); [|done..].
  destruct (strip_split s) as (l & r & Hs & _). rewrite E in Hs.
  exists (length (l ++ x1)), (length ((l ++ x1 ++ I ++ x2))),
         (length (l ++ x1 ++ I ++ x2 ++ N ++ x3)).
  repeat split.
  - rewrite Hs.
    replace (l ++ (x1 ++ I ++ x2 ++ N ++ x3 ++ R ++ y3) ++ r)
      with ((l ++ x1) ++ I ++ (x2 ++ N ++ x3 ++ R ++ y3 ++ r))
      by by rewrite <- !app_assoc.
    by apply label_at_app.
  - rewrite Hs.
    replace (l ++ (x1 ++ I ++ x2 ++ N ++ x3 ++ R ++ y3) ++ r)
      with ((l ++ x1 ++ I ++ x2) ++ N ++ (x3 ++ R ++ y3 ++ r))
      by by rewrite <- !app_assoc.
    by apply label_at_app.
  - rewrite Hs.
    replace (l ++ (x1 ++ I ++ x2 ++ N ++ x3 ++ R ++ y3) ++ r)
      with ((l ++ x1 ++ I ++ x2 ++ N ++ x3) ++ R ++ (y3 ++ r))
      by by rewrite <- !app_assoc.
    by apply label_at_app.
  - rewrite !length_app, (ci_length _ _ HI). lia.
  - rewrite !length_app, (ci_length _ _ HN). lia.
Qed.

Lemma match_in_order s m : search pattern (normalise s) = Some m -> in_order s.
Proof.
  intros H. apply search_sound in H as (a & Ha & Hwf & _).
  by eapply anatomy_in_order.
Qed.

Lemma not_in_order_invalid s :
  ~ in_order s -> validate_and_extract_llm_content s = Invalid.
Proof.
  intros H. unfold validate_and_extract_llm_content.
  fold (normalise s).
  destruct (search pattern (normalise s)) as [m|] eqn:E; [|done].
  destruct H. by eapply match_in_order.
Qed.

Lemma in_order_occurs s :
  in_order s ->
  occurs intent_label s /\ occurs node_label s /\ occurs reason_label s.
Proof. intros (i & j & k & ? & ? & ? & _). repeat split; by eexists. Qed.

Lemma missing_label_invalid w s :
  is_label w -> ~ occurs w s -> validate_and_extract_llm_content s = Invalid.
Proof.
  intros Hw H. apply not_in_order_invalid. intros Ho.
  apply in_order_occurs in Ho as (? & ? & ?).
  destruct Hw as [->|[->| ->]]; done.
Qed.

(** C3. An input in which one of the labels [Intent:], [Node:],
    [Reason:] is missing, or in which the three do not occur in this
    order, is extracted as Invalid: the flag is false and the three field
    values are null. *)
Theorem missing_or_misordered_labels_invalid (content : pystr) :
  ~ occurs intent_label content \/ ~ occurs node_label content
  \/ ~ occurs reason_label content \/ ~ in_order content ->
  validate_and_extract_llm_content content = (false, None, None, None).
Proof.
  intros [H|[H|[H|H]]].
  - eapply missing_label_invalid; [|exact H]. by left.
  - eapply missing_label_invalid; [|exact H]. by right; left.
  - eapply missing_label_invalid; [|exact H]. by right; right.
  - by apply not_in_order_invalid.
Qed.

Lemma missing_or_misordered_labels_invalid_witness :
  validate_and_extract_llm_content (lit "Node: Node-1 Intent: t Reason: t")
  = (false, None, None, None).
Proof.
  apply missing_or_misordered_labels_invalid.
  right; right; right. rewrite in_orderb_spec. vm_compute. discriminate.
Defined.

(** C9. A label word that is separated from its colon by whitespace is
    not an occurrence of the label; an input of this shape in which the
    label has no other, well-formed occurrence is extracted as Invalid. *)
Theorem spaced_colon_is_no_label (word a W ws b : pystr) :
  is_label (word ++ [58%N]) -> ci word W -> ws <> [] -> all_space ws ->
  ~ label_at (word ++ [58%N]) (a ++ W ++ ws ++ 58%N :: b) (length a)
  /\ ((forall k, k <> length a ->
         ~ label_at (word ++ [58%N]) (a ++ W ++ ws ++ 58%N :: b) k) ->
      validate_and_extract_llm_content (a ++ W ++ ws ++ 58%N :: b)
      = (false, None, None, None)).
Proof.
  intros Hl HW Hne Hws.
  assert (Hhere : ~ label_at (word ++ [58%N]) (a ++ W ++ ws ++ 58%N :: b)
                             (length a)).
  { unfold label_at. rewrite drop_app_length.
    destruct ws as [|c ws]; [done|]. inversion Hws as [|? ? Hc _]; subst.
    rewrite length_app. simpl.
    rewrite <- (ci_length _ _ HW), take_app_add. simpl. rewrite take_0.
    intros H. apply Forall2_app_inv in H as [_ H]; [|by apply Forall2_length in HW].
    inversion H as [|? ? ? ? Hm _]; subst.
    apply lit_ignorecase_space in Hm; [congruence | reflexivity]. }
  split; [done|]. intros Hother.
  apply (missing_label_invalid _ _ Hl). intros [k Hk].
  destruct (decide (k = length a)) as [->|Hk']; [done | by eapply Hother].
Qed.

Lemma spaced_colon_is_no_label_witness :
  validate_and_extract_llm_content (lit "Intent : x Node: y Reason: z")
  = (false, None, None, None).
Proof.
  apply (spaced_colon_is_no_label (lit "Intent") [] (lit "Intent") [32%N]
           (lit " x Node: y Reason: z")).
  - left. reflexivity.
  - repeat constructor.
  - discriminate.
  - repeat constructor.
  - intros k _ Hk. apply label_at_positions in Hk; [|discriminate].
    match type of Hk with
    | _ ∈ ?l => assert (E : l = []) by (vm_compute; reflexivity);
                rewrite E in Hk
    end.
    by apply elem_of_nil in Hk.
Defined.

(** *** Results of the extractor *)

Lemma validate_cases content :
  let c := normalise content in
  validate_and_extract_llm_content content = Invalid
  \/ exists m,
       search pattern c = Some m
       /\ strip (m_group c m Gintent) <> [] /\ strip (m_group c m Gnode) <> []
       /\ strip (m_group c m Greason) <> []
       /\ validate_and_extract_llm_content content
          = (true, Some (strip (m_group c m Gintent)),
                   Some (strip (m_group c m Gnode)),
                   Some (strip (m_group c m Greason))).
Proof.
  intros c. unfold validate_and_extract_llm_content. fold (normalise content).
  fold c. destruct (search pattern c) as [m|]; [|by left].
  destruct (strip (m_group c m Gintent)) as [|x1 f1] eqn:E1; [by left|].
  destruct (strip (m_group c m Gnode)) as [|x2 f2] eqn:E2; [by left|].
  destruct (strip (m_group c m Greason)) as [|x3 f3] eqn:E3; [by left|].
  right. exists m. rewrite E1, E2, E3. by repeat split.
Qed.

Lemma validate_valid_inv content i n r :
  validate_and_extract_llm_content content = (true, Some i, Some n, Some r) ->
  let c := normalise content in
  exists m,
    search pattern c = Some m
    /\ i = strip (m_group c m Gintent) /\ n = strip (m_group c m Gnode)
    /\ r = strip (m_group c m Greason) /\ i <> [] /\ n <> [] /\ r <> [].
Proof.
  intros H c. destruct (validate_cases content) as [E|(m & Hm & ? & ? & ? & E)].
  - rewrite E in H. discriminate.
  - fold c in Hm, E. rewrite E in H. injection H as <- <- <-. by exists m.
Qed.

(** C4. When the pattern matches but one of the three captured values is
    empty once the whitespace around it is trimmed, the extraction is
    Invalid, with the three field values null. *)
Theorem blank_field_invalid (content : pystr) (m : match_obj) :
  search pattern (normalise content) = Some m ->
  strip (m_group (normalise content) m Gintent) = []
  \/ strip (m_group (normalise content) m Gnode) = []
  \/ strip (m_group (normalise content) m Greason) = [] ->
  validate_and_extract_llm_content content = (false, None, None, None).
Proof.
  intros Hm H. unfold validate_and_extract_llm_content.
  fold (normalise content). rewrite Hm.
  destruct H as [->|[->| ->]]; simpl.
  - done.
  - by rewrite andb_false_r.
  - by rewrite andb_false_r.
Qed.

Lemma blank_field_invalid_witness :
  validate_and_extract_llm_content (lit "Intent:  Node: Node-1 Reason: t")
  = (false, None, None, None).
Proof.
  eapply blank_field_invalid.
  - vm_compute. reflexivity.
  - left. vm_compute. reflexivity.
Defined.

Lemma m_group_tidy c m g : tidy false c = true -> tidy false (m_group c m g) = true.
Proof.
  intros H. unfold m_group. destruct (span m g) as [[a b]|]; [|done].
  by apply tidy_slice.
Qed.

Lemma field_in_text c m g :
  exists u v, c = u ++ strip (m_group c m g) ++ v.
Proof.
  destruct (strip_split (m_group c m g)) as (l & r & Hg & _).
  unfold m_group in *. destruct (span m g) as [[a b]|].
  - exists (take a c ++ l), (r ++ drop (b - a) (drop a c)).
    rewrite <- (take_drop a c) at 1.
    rewrite <- (take_drop (b - a) (drop a c)) at 1.
    unfold slice in Hg. rewrite Hg at 1. by rewrite <- !app_assoc.
  - exists [], c. by destruct l.
Qed.

(** C6. In a Valid result each of the three field values has no newline,
    its only whitespace characters are plain spaces, no two whitespace
    characters are adjacent, and it neither starts nor ends with
    whitespace; it is a stretch of the input in which every run of
    whitespace is replaced by a single space. *)
Theorem valid_fields_single_spaced (content i n r : pystr) :
  validate_and_extract_llm_content content = (true, Some i, Some n, Some r) ->
  forall f, f ∈ [i; n; r] ->
    (10%N ∉ f) /\ plain_spaces f /\ no_space_run f /\ no_outer_space f
    /\ exists x seg y, content = x ++ seg ++ y /\ f = sub_spaces seg.
Proof.
  intros H f Hf.
  apply validate_valid_inv in H as (m & _ & -> & -> & -> & _).
  assert (exists g, f = strip (m_group (normalise content) m g)) as [g ->].
  { rewrite !elem_of_cons in Hf. destruct Hf as [->|[->|[->|Hf]]];
      [by eexists..|by apply elem_of_nil in Hf]. }
  assert (Ht : tidy false (strip (m_group (normalise content) m g)) = true)
    by apply tidy_strip, m_group_tidy, tidy_normalise.
  split; [|split; [|split; [|split]]].
  - intros Hin. by pose proof (tidy_plain _ _ Ht _ Hin eq_refl).
  - by eapply tidy_plain.
  - by eapply tidy_no_run.
  - apply strip_no_outer_space.
  - destruct (field_in_text (normalise content) m g) as (u & v & E).
    eapply normalise_segment; [exact E | apply strip_no_outer_space].
Qed.

Lemma valid_fields_single_spaced_witness :
  (10%N ∉ lit "two lines") /\ plain_spaces (lit "two lines")
  /\ no_space_run (lit "two lines") /\ no_outer_space (lit "two lines")
  /\ exists x seg y,
       lit "Intent: two" ++ [10%N; 9%N] ++ lit "lines Node:  Node-5"
         ++ [10%N] ++ lit "Reason: a   b  " = x ++ seg ++ y
       /\ lit "two lines" = sub_spaces seg.
Proof.
  apply (valid_fields_single_spaced
           (lit "Intent: two" ++ [10%N; 9%N] ++ lit "lines Node:  Node-5"
              ++ [10%N] ++ lit "Reason: a   b  ")
           (lit "two lines") (lit "Node-5") (lit "a b")).
  - vm_compute. reflexivity.
  - left.
Defined.

(** C10. The delimiters inside a field value are matched without regard
    to case as well: the intent text below contains [NODE:], the intent
    field stops just before it, and what follows goes to the node and
    reason fields. *)
Theorem delimiter_in_value_any_case :
  exists x y n r : pystr,
    validate_and_extract_llm_content (lit "Intent: " ++ x ++ lit " NODE:" ++ y)
    = (true, Some x, Some n, Some r)
    /\ lit "NODE:" <> node_label /\ ci node_label (lit "NODE:")
    /\ y = lit " " ++ n ++ lit " Reason: " ++ r
    /\ occurs node_label n.
Proof.
  exists (lit "see"), (lit " a Node: b Reason: c"), (lit "a Node: b"), (lit "c").
  split; [vm_compute; reflexivity|]. split; [discriminate|].
  split; [repeat constructor|]. split; [reflexivity|].
  exists 2. repeat constructor.
Qed.

(** *** The fields of a match *)

Lemma slice_mid x f y a b :
  a = length x -> b = a + length f -> slice (x ++ f ++ y) a b = f.
Proof.
  intros -> ->. unfold slice. rewrite drop_app_length.
  replace (length x + length f - length x) with (length f) by lia.
  apply take_app_length.
Qed.

Lemma reads_groups a m :
  reads m a ->
  m_group (text_of a) m Gintent = a_intent a
  /\ m_group (text_of a) m Gnode = a_node a
  /\ m_group (text_of a) m Greason = a_reason a.
Proof.
  destruct a as [pre I w1 fa w2 N w3 fb w4 R w5 z].
  unfold reads, m_group, text_of, reason_start, node_start, intent_start.
  anatomy_simpl. intros (_ & -> & -> & ->). repeat split.
  - replace (pre ++ I ++ w1 ++ fa ++ w2 ++ N ++ w3 ++ fb ++ w4 ++ R ++ w5 ++ z)
      with ((pre ++ I ++ w1) ++ fa ++ (w2 ++ N ++ w3 ++ fb ++ w4 ++ R ++ w5 ++ z))
      by by rewrite <- !app_assoc.
    apply slice_mid; rewrite ?length_app; lia.
  - replace (pre ++ I ++ w1 ++ fa ++ w2 ++ N ++ w3 ++ fb ++ w4 ++ R ++ w5 ++ z)
      with ((pre ++ I ++ w1 ++ fa ++ w2 ++ N ++ w3) ++ fb ++ (w4 ++ R ++ w5 ++ z))
      by by rewrite <- !app_assoc.
    apply slice_mid; rewrite ?length_app; lia.
  - replace (pre ++ I ++ w1 ++ fa ++ w2 ++ N ++ w3 ++ fb ++ w4 ++ R ++ w5 ++ z)
      with ((pre ++ I ++ w1 ++ fa ++ w2 ++ N ++ w3 ++ fb ++ w4 ++ R ++ w5) ++ z ++ [])
      by by rewrite <- !app_assoc, app_nil_r.
    apply slice_mid; rewrite ?length_app; lia.
Qed.

Lemma reads_ordered a m :
  reads m a ->
  exists s1 e1 s2 e2 s3 e3,
    span m Gintent = Some (s1, e1) /\ span m Gnode = Some (s2, e2)
    /\ span m Greason = Some (s3, e3)
    /\ m_start m <= s1 /\ s1 <= e1 /\ e1 <= s2 /\ s2 <= e2 /\ e2 <= s3 /\ s3 <= e3.
Proof.
  unfold reads, reason_start, node_start, intent_start.
  intros (-> & -> & -> & ->). do 6 eexists. repeat split; lia.
Qed.

(** The labels and the whitespace next to them fill the stretches
    between the fields. *)
Lemma label_zone_text a m :
  reads m a ->
  exists s1 e1 s2 e2 s3 e3,
    span m Gintent = Some (s1, e1) /\ span m Gnode = Some (s2, e2)
    /\ span m Greason = Some (s3, e3)
    /\ slice (text_of a) (m_start m) s1 = a_intent_label a ++ a_gap1 a
    /\ slice (text_of a) e1 s2 = a_gap2 a ++ a_node_label a ++ a_gap3 a
    /\ slice (text_of a) e2 s3 = a_gap4 a ++ a_reason_label a ++ a_gap5 a.
Proof.
  destruct a as [pre I w1 fa w2 N w3 fb w4 R w5 z].
  unfold reads, text_of, reason_start, node_start, intent_start.
  anatomy_simpl. intros (-> & -> & -> & ->). do 6 eexists.
  split; [done|]. split; [done|]. split; [done|]. repeat split.
  - replace (pre ++ I ++ w1 ++ fa ++ w2 ++ N ++ w3 ++ fb ++ w4 ++ R ++ w5 ++ z)
      with (pre ++ (I ++ w1) ++ (fa ++ w2 ++ N ++ w3 ++ fb ++ w4 ++ R ++ w5 ++ z))
      by by rewrite <- !app_assoc.
    apply slice_mid; rewrite ?length_app; lia.
  - replace (pre ++ I ++ w1 ++ fa ++ w2 ++ N ++ w3 ++ fb ++ w4 ++ R ++ w5 ++ z)
      with ((pre ++ I ++ w1 ++ fa) ++ (w2 ++ N ++ w3) ++ (fb ++ w4 ++ R ++ w5 ++ z))
      by by rewrite <- !app_assoc.
    apply slice_mid; rewrite ?length_app; lia.
  - replace (pre ++ I ++ w1 ++ fa ++ w2 ++ N ++ w3 ++ fb ++ w4 ++ R ++ w5 ++ z)
      with ((pre ++ I ++ w1 ++ fa ++ w2 ++ N ++ w3 ++ fb)
              ++ (w4 ++ R ++ w5) ++ (z))
      by by rewrite <- !app_assoc.
    apply slice_mid; rewrite ?length_app; lia.
Qed.

(** A captured value that is blank is the one space between its label
    and the next label. *)
Lemma tidy_all_space b l :
  tidy b l = true -> all_space l -> l = [] \/ l = [32%N].
Proof.
  intros Ht Hs. destruct Hs as [|x l Hx Hl]; [by left|]. right.
  simpl in Ht. rewrite Hx in Ht. rewrite !andb_true_iff in Ht.
  destruct Ht as [[Hx32 _] Ht]. apply N.eqb_eq in Hx32 as ->.
  destruct Hl as [|y l Hy _]; [done|]. simpl in Ht. rewrite Hy in Ht.
  simpl in Ht. by rewrite andb_false_r in Ht.
Qed.

Lemma strip_nil_all_space l : strip l = [] -> all_space l.
Proof.
  intros H. destruct (strip_split l) as (x & y & -> & Hx & Hy).
  rewrite H. by apply Forall_app.
Qed.

Lemma blank_field_is_one_space content m g :
  search pattern (normalise content) = Some m ->
  strip (m_group (normalise content) m g) = [] ->
  m_group (normalise content) m g = [32%N].
Proof.
  intros Hm Hblank.
  destruct (tidy_all_space false (m_group (normalise content) m g)) as [E|E].
  - unfold m_group. destruct (span m g) as [[a b]|]; [|done].
    apply tidy_slice, tidy_normalise.
  - by apply strip_nil_all_space.
  - apply search_sound in Hm as (a & Htext & Hwf & Hr).
    apply reads_groups in Hr as (H1 & H2 & H3). rewrite Htext in *.
    destruct Hwf as (_ & _ & _ & _ & _ & _ & _ & _ & Ha & Hb & Hc).
    destruct g; congruence.
  - done.
Qed.

(** Whitespace alone between [Intent:] and the next [Node:] does not
    always leave the intent blank: a later [Node:] can close it. *)
Example later_label_closes_field :
  validate_and_extract_llm_content (lit "Intent: Node: x Node: y Reason: z")
  = (true, Some (lit "Node: x"), Some (lit "y"), Some (lit "z")).
Proof. vm_compute. reflexivity. Qed.

(** The reason field is all the text after the [Reason:] label. *)
Lemma reason_runs_to_end content i n r :
  validate_and_extract_llm_content content = (true, Some i, Some n, Some r) ->
  exists x R w,
    normalise content = x ++ R ++ w ++ r /\ ci reason_label R /\ all_space w.
Proof.
  intros H. apply validate_valid_inv in H as (m & Hm & _ & _ & -> & _ & _ & Hr).
  apply search_sound in Hm as (a & Ha & Hwf & Hreads).
  apply reads_groups in Hreads as (_ & _ & Hz). rewrite Ha in Hz.
  rewrite Hz in *. clear Hz.
  destruct (normalise_no_outer_space content) as [_ Hlast]. rewrite <- Ha in *.
  destruct a as [pre I w1 fa w2 N w3 fb w4 R w5 z].
  destruct Hwf as (_ & _ & HR & _ & _ & _ & _ & Hw5 & _).
  unfold text_of in *. anatomy_simpl.
  destruct (lstrip_split z) as (l & Hl & Hsp).
  unfold strip in *. destruct (lstrip z) as [|y u _] using rev_ind; [done|].
  assert (Hy : is_space y = false).
  { apply Hlast. rewrite Hl, !app_assoc. apply last_snoc. }
  rewrite rstrip_fixed by done.
  exists (pre ++ I ++ w1 ++ fa ++ w2 ++ N ++ w3 ++ fb ++ w4), R, (w5 ++ l).
  split; [|split; [done | by apply Forall_app]].
  rewrite Hl at 1. by rewrite <- !app_assoc.
Qed.

(** In terms of the input: the reason value is everything after a
    [Reason:] label, up to the end of the input, normalised. *)
Lemma reason_is_rest content i n r :
  validate_and_extract_llm_content content = (true, Some i, Some n, Some r) ->
  exists x R rest,
    content = x ++ R ++ rest /\ ci reason_label R /\ r = normalise rest.
Proof.
  intros H. destruct (reason_runs_to_end _ _ _ _ H) as (X & R & w & Hc & HR & Hw).
  apply validate_valid_inv in H as (m & _ & _ & _ & Hr & _ & _ & Hne).
  assert (Hhead : forall x, head r = Some x -> is_space x = false).
  { rewrite Hr. apply strip_no_outer_space. }
  clear Hr m. destruct (label_found reason_label R) as [? ?]; [by right; right | done |].
  unfold normalise, sub_spaces in Hc.
  apply sub_spaces_find in Hc as (x' & y' & Hs & Hy); [|done..].
  destruct (strip_split content) as (lc & rc & Hcontent & _ & Hrc).
  exists (lc ++ x'), R, (y' ++ rc). split; [|split; [done|]].
  { rewrite Hcontent, Hs. by rewrite <- !app_assoc. }
  destruct (strip_no_outer_space content) as [_ Hlast]. rewrite Hs in Hlast.
  destruct (lstrip_split y') as (l0 & Hy' & Hl0).
  destruct (lstrip y') as [|yl t _] eqn:E using rev_ind.
  { rewrite app_nil_r in Hy'. subst l0.
    pose proof (all_space_sub_spaces false y' Hl0) as Hall. rewrite Hy in Hall.
    apply Forall_app in Hall as [_ Hall]. destruct r as [|r0 r]; [done|].
    inversion Hall; subst. by rewrite (Hhead r0 eq_refl) in *. }
  assert (Hyl : is_space yl = false).
  { apply Hlast. rewrite Hy', !app_assoc. apply last_snoc. }
  unfold normalise, strip.
  rewrite lstrip_app_keep by (rewrite E; by destruct t).
  rewrite rstrip_spaces by done. rewrite E, rstrip_fixed by done.
  unfold sub_spaces. rewrite <- E, sub_spaces_lstrip, Hy.
  rewrite lstrip_spaces by done.
  destruct r as [|r0 r]; [done|]. by rewrite lstrip_fixed by by apply Hhead.
Qed.

(** *** Text before the first label *)

Lemma rstrip_no_space_prefix I t : no_space I -> rstrip (I ++ t) = I ++ rstrip t.
Proof.
  induction 1 as [|c I Hc _ IH]; [done|].
  rewrite <- app_comm_cons, rstrip_cons_keep by done. by rewrite IH.
Qed.

Lemma sub_spaces_no_space_prefix I u :
  no_space I -> sub_spaces_from false (I ++ u) = I ++ sub_spaces_from false u.
Proof.
  induction 1 as [|c I Hc _ IH]; [done|]. simpl. by rewrite Hc, IH.
Qed.

Lemma normalise_prefix p I t :
  no_space I -> I <> [] ->
  normalise (p ++ I ++ t) = sub_spaces (lstrip p) ++ normalise (I ++ t)
  /\ normalise (I ++ t) = I ++ sub_spaces (rstrip t).
Proof.
  intros HI Hne. destruct I as [|c I]; [done|]. inversion HI as [|? ? Hc HI']; subst.
  assert (Hs : strip ((c :: I) ++ t) = c :: I ++ rstrip t).
  { unfold strip. rewrite <- app_comm_cons, lstrip_fixed by done.
    rewrite rstrip_cons_keep by done. by rewrite rstrip_no_space_prefix. }
  assert (Hl : lstrip (p ++ (c :: I) ++ t) = lstrip p ++ (c :: I) ++ t).
  { destruct (lstrip p) as [|y u] eqn:E.
    - destruct (lstrip_split p) as (l & Hp & Hsp). rewrite E, app_nil_r in Hp.
      subst l. rewrite lstrip_spaces by done.
      by rewrite <- app_comm_cons, lstrip_fixed.
    - rewrite lstrip_app_keep by (by rewrite E). by rewrite E. }
  assert (Hps : strip (p ++ (c :: I) ++ t) = lstrip p ++ c :: I ++ rstrip t).
  { unfold strip at 1. rewrite Hl. rewrite rstrip_app_keep.
    - rewrite <- app_comm_cons, rstrip_cons_keep by done.
      by rewrite rstrip_no_space_prefix.
    - by rewrite <- app_comm_cons, rstrip_cons_keep. }
  unfold normalise. rewrite Hs, Hps. unfold sub_spaces. split.
  - rewrite sub_spaces_from_app by done. simpl. by rewrite Hc.
  - exact (sub_spaces_no_space_prefix (c :: I) (rstrip t) HI).
Qed.

Lemma label_at_sub_spaces w b q k :
  is_label w -> label_at w (sub_spaces_from b q) k -> occurs w q.
Proof.
  intros Hw H. apply label_at_inv in H as (x & I & y & [(E & HI & _)|E]);
    [|by apply label_nonempty in Hw].
  destruct (label_found _ _ Hw HI) as [? ?].
  apply sub_spaces_find in E as (x' & y' & -> & _); [|done..].
  exists (length x'). by apply label_at_app.
Qed.

Lemma label_at_lstrip w p k : is_label w -> label_at w (lstrip p) k -> occurs w p.
Proof.
  intros Hw H. apply label_at_inv in H as (x & I & y & [(E & HI & _)|E]);
    [|by apply label_nonempty in Hw].
  destruct (lstrip_split p) as (l & Hp & _). rewrite E in Hp.
  exists (length (l ++ x)). rewrite Hp, app_assoc. by apply label_at_app.
Qed.

Lemma colon_only_colon y : lit_ignorecase 58%N y = true -> y = 58%N.
Proof.
  unfold lit_ignorecase. cbv zeta.
  change (ascii_lower 58%N) with 58%N. simpl.
  rewrite !orb_false_r. unfold ascii_lower.
  destruct (N.leb_spec 65 y), (N.leb_spec y 90); simpl;
    intros Hq; apply N.eqb_eq in Hq; lia.
Qed.

Lemma intent_letters_no_colon j p :
  j < 6 -> intent_label !! j = Some p -> lit_ignorecase p 58%N = false.
Proof.
  intros Hj. do 6 (destruct j as [|j]; [by intros [= <-]|]). lia.
Qed.

Lemma label_inside P T k :
  k + length intent_label <= length P ->
  label_at intent_label (P ++ T) k -> label_at intent_label P k.
Proof.
  unfold label_at. intros Hk. rewrite drop_app_le by lia.
  by rewrite take_app_le by (rewrite length_drop; lia).
Qed.

Lemma no_label_straddle P I T k :
  ci intent_label I -> k < length P -> length P < k + length intent_label ->
  ~ label_at intent_label (P ++ I ++ T) k.
Proof.
  intros HI Hk1 Hk2 H. pose proof (ci_length _ _ HI) as HlenI.
  unfold label_at in H. change (length intent_label) with 7 in *.
  destruct (lookup_lt_is_Some_2 I (k + 6 - length P)) as [y Hy]; [lia|].
  assert (HX : take 7 (drop k (P ++ I ++ T)) !! 6 = Some y).
  { rewrite lookup_take_lt, lookup_drop by lia.
    rewrite lookup_app_r by lia. rewrite lookup_app_l by lia.
    rewrite <- Hy. f_equal; lia. }
  destruct (Forall2_lookup_r _ _ _ _ _ H HX) as (q & Hq & Hqy).
  injection Hq as <-. apply colon_only_colon in Hqy as ->.
  destruct (Forall2_lookup_r _ _ _ _ _ HI Hy) as (q & Hq & Hqy).
  assert (Hj : k + 6 - length P < 6) by lia.
  by rewrite (intent_letters_no_colon _ _ Hj Hq) in Hqy.
Qed.

Lemma exec_pattern_needs_label pos rest mk r :
  exec pattern pos rest mk = Some r -> label_at intent_label rest 0.
Proof.
  unfold pattern, lits. rewrite exec_lits.
  destruct (ci_strip (lit "Intent:") rest) as [r1|] eqn:E; [|done]. intros _.
  apply ci_strip_spec in E as (I & -> & HI). by apply (label_at_app _ []).
Qed.

Lemma search_from_skip P T pos :
  (forall k, k < length P -> ~ label_at intent_label (P ++ T) k) ->
  search_from pattern pos (P ++ T) = search_from pattern (pos + length P) T.
Proof.
  revert pos. induction P as [|x P IH]; intros pos H.
  - simpl. by rewrite Nat.add_0_r.
  - rewrite <- app_comm_cons. cbn [search_from].
    destruct (exec pattern pos (x :: P ++ T) []) as [[e mk]|] eqn:E.
    + apply exec_pattern_needs_label in E. destruct (H 0); [simpl; lia | done].
    + rewrite IH.
      * f_equal. simpl. lia.
      * intros k Hk. apply (H (S k)). simpl. lia.
Qed.

Lemma prefix_discarded p s :
  ~ occurs intent_label p -> label_at intent_label s 0 ->
  validate_and_extract_llm_content (p ++ s) = validate_and_extract_llm_content s.
Proof.
  intros Hp Hs.
  apply label_at_inv in Hs as (x & I & t & [(-> & HI & Hx)|E]); [|done].
  destruct x; [|done]. simpl.
  destruct (label_found intent_label I) as [Hne Hns]; [by left | done |].
  destruct (normalise_prefix p I t Hns Hne) as [Hn HC].
  unfold validate_and_extract_llm_content.
  fold (normalise (p ++ I ++ t)). fold (normalise (I ++ t)).
  rewrite Hn. set (P := sub_spaces (lstrip p)). set (C := normalise (I ++ t)).
  assert (Hsearch : search pattern (P ++ C)
                    = shift_match (length P) <$> search pattern C).
  { unfold search. rewrite search_from_skip.
    - rewrite (Nat.add_comm 0). apply search_from_shift.
    - intros k Hk Hlab.
      destruct (decide (k + length intent_label <= length P)) as [Hin|Hout].
      + apply label_inside in Hlab; [|done]. apply Hp.
        destruct (label_at_sub_spaces _ _ _ _ ltac:(by left) Hlab) as [k' Hk'].
        by eapply label_at_lstrip; [left|].
      + unfold C in Hlab. rewrite HC in Hlab.
        eapply no_label_straddle; [exact HI | | | exact Hlab]; lia. }
  rewrite Hsearch. destruct (search pattern C) as [m|]; [|done]. simpl.
  by rewrite !m_group_shift.
Qed.

(** C7. Text before the first [Intent:] is dropped and never makes the
    extraction fail: it leaves the result as it is.  In a Valid result the
    reason value is all the text that follows a [Reason:] label, up to
    the end of the input, normalised. *)
Theorem prefix_dropped_reason_to_end (p s : pystr) :
  ~ occurs intent_label p -> label_at intent_label s 0 ->
  validate_and_extract_llm_content (p ++ s) = validate_and_extract_llm_content s
  /\ forall i n r,
       validate_and_extract_llm_content (p ++ s) = (true, Some i, Some n, Some r) ->
       exists x R rest,
         p ++ s = x ++ R ++ rest /\ ci reason_label R /\ r = normalise rest.
Proof.
  intros Hp Hs. split; [by apply prefix_discarded|].
  intros i n r H. by eapply reason_is_rest.
Qed.

Lemma no_occurrence w s : w <> [] -> positions w s = [] -> ~ occurs w s.
Proof.
  intros Hw E [k Hk]. apply label_at_positions in Hk; [|done].
  rewrite E in Hk. by apply elem_of_nil in Hk.
Qed.

Lemma prefix_dropped_reason_to_end_witness :
  validate_and_extract_llm_content
    (lit "some preamble " ++ lit "Intent: t Node: Node-1 Reason: t and  more ")
  = (true, Some (lit "t"), Some (lit "Node-1"), Some (lit "t and more"))
  /\ exists x R rest,
       lit "some preamble " ++ lit "Intent: t Node: Node-1 Reason: t and  more "
       = x ++ R ++ rest
       /\ ci reason_label R /\ lit "t and more" = normalise rest.
Proof.
  destruct (prefix_dropped_reason_to_end (lit "some preamble ")
              (lit "Intent: t Node: Node-1 Reason: t and  more ")) as [H1 H2].
  - apply no_occurrence; [discriminate | vm_compute; reflexivity].
  - repeat constructor.
  - split.
    + rewrite H1. vm_compute. reflexivity.
    + apply (H2 (lit "t") (lit "Node-1")). vm_compute. reflexivity.
Defined.

(** *** Changing the case of the labels *)

Lemma agree_outside_spec zone i c c' :
  agree_outside zone i c c' = true ->
  forall j, zone (i + j) = false -> c !! j = c' !! j.
Proof.
  revert i c'. induction c as [|x c IH]; intros i [|y c']; simpl; try done.
  rewrite !andb_true_iff, orb_true_iff. intros [Hxy Hrest] [|j] Hz; simpl.
  - rewrite Nat.add_0_r in Hz. destruct Hxy as [Hxy|Hxy]; [|congruence].
    apply N.eqb_eq in Hxy. by subst.
  - apply (IH (S i)); [done|]. by replace (S i + j) with (i + S j) by lia.
Qed.

Lemma slice_ext c c' a b :
  (forall j, a <= j < b -> c !! j = c' !! j) -> slice c a b = slice c' a b.
Proof.
  intros H. apply list_eq. intros i. unfold slice.
  rewrite !lookup_take, !lookup_drop. case_decide; [apply H; lia | done].
Qed.

Lemma fields_outside_label_zone c c' m a :
  reads m a -> agree_outside (label_zone m) 0 c c' = true ->
  forall g, m_group c' m g = m_group c m g.
Proof.
  intros Hr Hagree g.
  destruct (reads_ordered _ _ Hr)
    as (s1 & e1 & s2 & e2 & s3 & e3 & H1 & H2 & H3 & Hord).
  assert (Hzone : forall j,
    (s1 <= j < e1 \/ s2 <= j < e2 \/ s3 <= j < e3) -> label_zone m j = false).
  { intros j Hj. unfold label_zone. rewrite H1, H2, H3.
    repeat match goal with
           | |- context [Nat.leb ?x ?y] => destruct (Nat.leb_spec x y)
           | |- context [Nat.ltb ?x ?y] => destruct (Nat.ltb_spec x y)
           end; simpl; try done; lia. }
  unfold m_group. destruct g; rewrite ?H1, ?H2, ?H3; apply slice_ext;
    intros j Hj; symmetry; apply (agree_outside_spec _ 0 _ _ Hagree);
    apply Hzone; lia.
Qed.

(** C5. Changing nothing but the letter case of the label tokens leaves
    the outcome of the extraction as it is: the same validity and the
    same three values.  Here [s'] is [s] with the case of some ASCII
    letters changed, all of them in the labels that the matcher
    recognises. *)
Theorem label_case_invariant (s s' : pystr) :
  recased s s' ->
  only_labels_differ (normalise s) (normalise s') = true ->
  validate_and_extract_llm_content s' = validate_and_extract_llm_content s.
Proof.
  intros Hrec Hlab. apply normalise_recased in Hrec.
  unfold validate_and_extract_llm_content.
  fold (normalise s). fold (normalise s').
  rewrite <- (search_recased pattern _ _ Hrec).
  unfold only_labels_differ in Hlab.
  destruct (search pattern (normalise s)) as [m|] eqn:Hm; [|done].
  destruct (search_sound _ _ Hm) as (a & _ & _ & Hr).
  by rewrite !(fields_outside_label_zone _ _ _ _ Hr Hlab).
Qed.

Lemma label_case_invariant_witness :
  validate_and_extract_llm_content (lit "iNtEnT: x nOdE: Node-6 rEaSoN: y")
  = validate_and_extract_llm_content (lit "Intent: x Node: Node-6 Reason: y").
Proof.
  apply label_case_invariant.
  - reflexivity.
  - vm_compute. reflexivity.
Defined.

(** Whatever letters change case, a match is found at the same place or
    not at all, and the outcome is Valid or Invalid alike. *)
Lemma search_case_blind s s' :
  recased s s' -> search pattern (normalise s') = search pattern (normalise s).
Proof.
  intros H. symmetry. by apply search_recased, normalise_recased.
Qed.

Lemma field_recased c c' m g :
  Forall2 same_letter c c' ->
  Forall2 same_letter (strip (m_group c m g)) (strip (m_group c' m g)).
Proof.
  intros H. apply rstrip_recased, lstrip_recased. unfold m_group.
  destruct (span m g) as [[a b]|]; [|constructor].
  by apply Forall2_take, Forall2_drop.
Qed.

Lemma truthy_recased f f' : Forall2 same_letter f f' -> truthy f = truthy f'.
Proof. by destruct 1. Qed.

Lemma validity_case_blind s s' :
  recased s s' ->
  is_valid (validate_and_extract_llm_content s')
  = is_valid (validate_and_extract_llm_content s).
Proof.
  intros H. unfold validate_and_extract_llm_content.
  fold (normalise s). fold (normalise s'). rewrite (search_case_blind _ _ H).
  apply normalise_recased in H.
  destruct (search pattern (normalise s)) as [m|]; [|done].
  rewrite <- !(truthy_recased _ _ (field_recased _ _ m _ H)).
  by destruct (negb _).
Qed.

(** A label-like token inside a value is text of the value: its case
    shows in the result. *)
Example case_change_inside_value :
  validate_and_extract_llm_content (lit "Intent: a Node: b Reason: see node: c")
  = (true, Some (lit "a"), Some (lit "b"), Some (lit "see node: c"))
  /\ validate_and_extract_llm_content (lit "Intent: a Node: b Reason: see NODE: c")
     = (true, Some (lit "a"), Some (lit "b"), Some (lit "see NODE: c")).
Proof. split; vm_compute; reflexivity. Qed.

(** *** The test table of the module

    The eight cases of the [__main__] block, with their expected
    results. *)

Module SourceTests.

(** A well-formed answer *)
Example source_test_1 :
  validate_and_extract_llm_content
    (lit "Intent: " ++ [26597%N; 35810%N; 22825%N; 27668%N]
     ++ lit " Node: Node-3 Reason: "
     ++ [29992%N; 25143%N; 26126%N; 30830%N; 35810%N; 38382%N; 20170%N;
      26085%N; 22825%N; 27668%N; 24773%N; 20917%N])
  = (true,
     Some ([26597%N; 35810%N; 22825%N; 27668%N]),
     Some (lit "Node-3"),
     Some ([29992%N; 25143%N; 26126%N; 30830%N; 35810%N; 38382%N; 20170%N;
            26085%N; 22825%N; 27668%N; 24773%N; 20917%N])).
Proof. vm_compute. reflexivity. Qed.

(** Empty intent *)
Example source_test_2 :
  validate_and_extract_llm_content
    (lit "Intent:  Node: Node-1 Reason: " ++ [27979%N; 35797%N])
  = Invalid.
Proof. vm_compute. reflexivity. Qed.

(** Labels out of order *)
Example source_test_3 :
  validate_and_extract_llm_content
    (lit "Node: Node-1 Intent: " ++ [27979%N; 35797%N] ++ lit " Reason: "
     ++ [27979%N; 35797%N])
  = Invalid.
Proof. vm_compute. reflexivity. Qed.

(** No reason *)
Example source_test_4 :
  validate_and_extract_llm_content
    (lit "Intent: " ++ [27979%N; 35797%N] ++ lit " Node: Node-1")
  = Invalid.
Proof. vm_compute. reflexivity. Qed.

(** Text before and after *)
Example source_test_5 :
  validate_and_extract_llm_content
    ([21069%N; 32622%N; 20869%N; 23481%N] ++ lit " Intent: "
     ++ [27979%N; 35797%N] ++ lit " Node: Node-1 Reason: "
     ++ [27979%N; 35797%N] ++ lit " " ++ [21518%N; 32622%N; 20869%N; 23481%N])
  = (true,
     Some ([27979%N; 35797%N]),
     Some (lit "Node-1"),
     Some ([27979%N; 35797%N] ++ lit " "
           ++ [21518%N; 32622%N; 20869%N; 23481%N])).
Proof. vm_compute. reflexivity. Qed.

(** Colons in the values *)
Example source_test_6 :
  validate_and_extract_llm_content
    (lit "Intent: " ++ [38656%N; 35201%N] ++ lit ":"
     ++ [22797%N; 26434%N; 20869%N; 23481%N]
     ++ lit " Node: Node:with:colon Reason: " ++ [21253%N; 21547%N] ++ lit ":"
     ++ [29305%N; 27530%N; 23383%N; 31526%N])
  = (true,
     Some ([38656%N; 35201%N] ++ lit ":"
           ++ [22797%N; 26434%N; 20869%N; 23481%N]),
     Some (lit "Node:with:colon"),
     Some ([21253%N; 21547%N] ++ lit ":"
           ++ [29305%N; 27530%N; 23383%N; 31526%N])).
Proof. vm_compute. reflexivity. Qed.

(** Values over several lines *)
Example source_test_7 :
  validate_and_extract_llm_content
    (lit "Intent: "
     ++ [22810%N; 34892%N; 10%N; 20869%N; 23481%N; 27979%N; 35797%N]
     ++ lit " Node: Node-5" ++ [10%N] ++ lit "Reason: "
     ++ [25442%N; 34892%N; 10%N; 22788%N; 29702%N])
  = (true,
     Some ([22810%N; 34892%N] ++ lit " "
           ++ [20869%N; 23481%N; 27979%N; 35797%N]),
     Some (lit "Node-5"),
     Some ([25442%N; 34892%N] ++ lit " " ++ [22788%N; 29702%N])).
Proof. vm_compute. reflexivity. Qed.

(** Labels in mixed case *)
Example source_test_8 :
  validate_and_extract_llm_content
    (lit "iNtEnT: " ++ [22823%N; 23567%N; 20889%N; 27979%N; 35797%N]
     ++ lit " nOdE: Node-6 rEaSoN: "
     ++ [19981%N; 21306%N; 20998%N; 22823%N; 23567%N; 20889%N])
  = (true,
     Some ([22823%N; 23567%N; 20889%N; 27979%N; 35797%N]),
     Some (lit "Node-6"),
     Some ([19981%N; 21306%N; 20998%N; 22823%N; 23567%N; 20889%N])).
Proof. vm_compute. reflexivity. Qed.

End SourceTests.

End ExtractorFacts.

(** * Facts about the reward scorer *)

Module Float64Facts.

Lemma add_comm x y : add x y = add y x.
Proof.
  unfold add.
  destruct x as [[|]|[|]| |sx mx ex], y as [[|]|[|]| |sy my ey];
    try reflexivity.
  unfold SFadd. by rewrite Z.min_comm, Z.add_comm.
Qed.

Lemma cond_Zopp_negb s z : cond_Zopp (negb s) z = (- cond_Zopp s z)%Z.
Proof. destruct s; simpl; lia. Qed.

Lemma add_neg_l a f : add (neg a) f = sub f a.
Proof.
  unfold add, sub, neg.
  destruct a as [[|]|[|]| |sa ma ea], f as [[|]|[|]| |sf mf ef];
    try reflexivity.
  unfold SFadd, SFsub, SFopp. rewrite Z.min_comm, cond_Zopp_negb. f_equal. lia.
Qed.

Lemma add_neg_neg a f : add (neg a) (neg f) = sub (neg f) a.
Proof. apply add_neg_l. Qed.

End Float64Facts.

Module ScorerFacts.

Import PyStrFacts SreFacts ExtractorFacts Float64Facts.

Lemma split_no_sep sep p : sep ∉ p -> split sep p = [p].
Proof.
  induction p as [|c p IH]; [done|]. intros H. apply not_elem_of_cons in H as [Hc Hp].
  simpl. destruct (N.eqb_spec c sep); [congruence|]. by rewrite IH.
Qed.

Lemma split_app_sep sep p u : sep ∉ p -> split sep (p ++ sep :: u) = p :: split sep u.
Proof.
  induction p as [|c p IH]; simpl.
  - by rewrite N.eqb_refl.
  - intros H. apply not_elem_of_cons in H as [Hc Hp].
    destruct (N.eqb_spec c sep); [congruence|]. by rewrite IH.
Qed.

(** Splitting undoes joining, for pieces without a comma. *)
Lemma split_join_comma pieces :
  pieces <> [] -> Forall (fun p => 44%N ∉ p) pieces ->
  split 44%N (join_comma pieces) = pieces.
Proof.
  intros Hne H. induction H as [|p rest Hp Hrest IH]; [done|].
  destruct rest as [|q rest]; simpl.
  - by apply split_no_sep.
  - rewrite split_app_sep by done. f_equal. by apply IH.
Qed.

(** Every string is the join of its pieces, and no piece has a comma. *)
Lemma split_nonempty sep s : split sep s <> [].
Proof.
  destruct s as [|c s]; simpl; [done|].
  destruct (N.eqb c sep); [done|]. by destruct (split sep s).
Qed.

Lemma split_pieces_comma_free s : Forall (fun p => 44%N ∉ p) (split 44%N s).
Proof.
  induction s as [|c s IH]; simpl.
  - repeat constructor. apply not_elem_of_nil.
  - destruct (N.eqb_spec c 44).
    + constructor; [apply not_elem_of_nil | done].
    + pose proof (split_nonempty 44%N s) as Hne.
      destruct (split 44%N s) as [|q rest]; [done|].
      inversion IH; subst. constructor; [|done].
      by apply not_elem_of_cons.
Qed.

Lemma join_split_comma s : join_comma (split 44%N s) = s.
Proof.
  induction s as [|c s IH]; simpl; [done|].
  destruct (N.eqb_spec c 44) as [->|Hc].
  - pose proof (split_nonempty 44%N s).
    destruct (split 44%N s) as [|q rest]; [done|]. simpl in *. by rewrite IH.
  - pose proof (split_nonempty 44%N s).
    destruct (split 44%N s) as [|q rest]; [done|].
    destruct rest; simpl in *; by rewrite <- IH.
Qed.

Section WithLower.

Variable str_lower : pystr -> pystr.

Lemma elem_of_add_all x acc items :
  x ∈ add_all str_lower acc items
  <-> x ∈ acc \/ x ∈ (fun g => str_lower (strip g)) <$> items.
Proof.
  revert acc. induction items as [|g items IH]; intros acc; simpl.
  - rewrite elem_of_nil. tauto.
  - rewrite IH, elem_of_union, elem_of_singleton, elem_of_cons. tauto.
Qed.

Lemma true_nodes_candidates gt :
  add_all str_lower ∅ (gt_items gt) = candidates str_lower gt.
Proof.
  apply set_eq. intros x. unfold candidates.
  rewrite elem_of_add_all, elem_of_list_to_set, elem_of_empty. tauto.
Qed.

(** The scorer never raises. *)
Lemma compute_score_total sol gt fw aw :
  is_Some (compute_score str_lower sol gt fw aw).
Proof.
  unfold compute_score.
  destruct (validate_cases sol) as [->|(m & _ & _ & _ & _ & ->)]; simpl.
  - done.
  - by destruct (bool_decide _).
Qed.

(** C1. When the extraction of the solution is Invalid, the score is
    [-formatWeight - accWeight], [acc] is false and [pred] is the format
    failure tag followed by the solution as given, whatever the ground
    truth is. *)
Theorem invalid_format_score (solution_str : pystr) (gt : ground_truth)
    (std_format std_acc : float) :
  validate_and_extract_llm_content solution_str = (false, None, None, None) ->
  compute_score str_lower solution_str gt std_format std_acc
  = Some {| score := sub (neg std_format) std_acc;
            acc := false;
            pred := tag_bad_format ++ solution_str |}.
Proof.
  intros H. unfold compute_score. rewrite H. by rewrite add_neg_neg.
Qed.

(** C2. When the extraction succeeds, the score is
    [formatWeight + accWeight] with [acc] true if the lower-cased node is
    among the trimmed, lower-cased candidates of the ground truth, and
    [formatWeight - accWeight] with [acc] false otherwise; [pred] is the
    status tag followed by the three fields in the template
    [Intent: ...\nNode: ...\nReason: ...]. *)
Theorem valid_format_score (solution_str : pystr) (gt : ground_truth)
    (std_format std_acc : float) (intent node reason : pystr) :
  validate_and_extract_llm_content solution_str
  = (true, Some intent, Some node, Some reason) ->
  compute_score str_lower solution_str gt std_format std_acc
  = Some (if bool_decide (str_lower node ∈ candidates str_lower gt)
          then {| score := add std_format std_acc;
                  acc := true;
                  pred := tag_good_node ++ lit "Intent: " ++ intent
                          ++ [10%N] ++ lit "Node: " ++ node
                          ++ [10%N] ++ lit "Reason: " ++ reason |}
          else {| score := sub std_format std_acc;
                  acc := false;
                  pred := tag_bad_node ++ lit "Intent: " ++ intent
                          ++ [10%N] ++ lit "Node: " ++ node
                          ++ [10%N] ++ lit "Reason: " ++ reason |}).
Proof.
  intros H. unfold compute_score. rewrite H, true_nodes_candidates.
  destruct (bool_decide _); simpl.
  - by rewrite add_comm.
  - by rewrite add_neg_l.
Qed.

Lemma candidates_ext gt gt' :
  (fun g => str_lower (strip g)) <$> gt_items gt
  = (fun g => str_lower (strip g)) <$> gt_items gt' ->
  candidates str_lower gt = candidates str_lower gt'.
Proof. unfold candidates. by intros ->. Qed.

Lemma compute_score_ext sol gt gt' fw aw :
  candidates str_lower gt = candidates str_lower gt' ->
  compute_score str_lower sol gt fw aw = compute_score str_lower sol gt' fw aw.
Proof.
  intros H. unfold compute_score. by rewrite !true_nodes_candidates, H.
Qed.

(** C8. A ground truth written as one comma-separated string scores as
    the sequence of its labels does: the pieces between the commas are
    the labels up to surrounding whitespace, as [A, b, C] is to
    [A], [b], [C]. *)
Theorem comma_string_as_sequence (solution_str : pystr)
    (pieces labels : list pystr) (std_format std_acc : float) :
  Forall (fun p => 44%N ∉ p) pieces ->
  Forall2 (fun p l => strip p = strip l) pieces labels ->
  labels <> [] ->
  compute_score str_lower solution_str (GtStr (join_comma pieces))
                std_format std_acc
  = compute_score str_lower solution_str (GtSeq labels) std_format std_acc.
Proof.
  intros Hcomma Hsame Hne. apply compute_score_ext, candidates_ext. simpl.
  rewrite split_join_comma; [|by destruct Hsame|done].
  clear Hcomma Hne. induction Hsame as [|p l ps ls Hpl _ IH]; [done|].
  rewrite !fmap_cons. by rewrite Hpl, IH.
Qed.

End WithLower.

Lemma invalid_format_score_witness :
  compute_score lower_ascii (lit "Node: Node-1 Intent: t Reason: t")
                (GtStr (lit "Node-1")) one three
  = Some {| score := sub (neg one) three;
            acc := false;
            pred := tag_bad_format ++ lit "Node: Node-1 Intent: t Reason: t" |}.
Proof.
  apply invalid_format_score. vm_compute. reflexivity.
Defined.

Lemma valid_format_score_witness :
  compute_score lower_ascii (lit "Intent: a Node: Node-1 Reason: b")
                (GtStr (lit "Node-2,Node-3")) one three
  = Some {| score := S754_finite true 4503599627370496 (-51);
            acc := false;
            pred := tag_bad_node ++ lit "Intent: a" ++ [10%N] ++ lit "Node: Node-1"
                    ++ [10%N] ++ lit "Reason: b" |}.
Proof.
  rewrite (valid_format_score lower_ascii _ _ _ _ (lit "a") (lit "Node-1") (lit "b"))
    by (vm_compute; reflexivity).
  vm_compute. reflexivity.
Defined.

Lemma comma_string_as_sequence_witness :
  compute_score lower_ascii (lit "Intent: x Node: B Reason: y")
                (GtStr (lit "A, b, C")) one three
  = compute_score lower_ascii (lit "Intent: x Node: B Reason: y")
                  (GtSeq [lit "A"; lit "b"; lit "C"]) one three.
Proof.
  apply (comma_string_as_sequence lower_ascii _ [lit "A"; lit " b"; lit " C"]).
  - refine (bool_decide_unpack _ _). vm_compute. exact I.
  - repeat constructor.
  - discriminate.
Defined.

(** The first two scenarios of the specification, with the default
    weights 1.0 and 3.0: a match scores 4.0, a format failure -4.0. *)
Example scenario_match :
  compute_score lower_ascii
    (lit "Intent: " ++ [26597%N; 35810%N; 22825%N; 27668%N]
       ++ lit " Node: Node-3 Reason: " ++ [29992%N; 25143%N])
    (GtStr (lit "node-3")) one three
  = Some {| score := S754_finite false 4503599627370496 (-50);
            acc := true;
            pred := tag_good_node ++ lit "Intent: "
                    ++ [26597%N; 35810%N; 22825%N; 27668%N; 10%N]
                    ++ lit "Node: Node-3" ++ [10%N] ++ lit "Reason: "
                    ++ [29992%N; 25143%N] |}.
Proof. vm_compute. reflexivity. Qed.

Example scenario_format_failure :
  compute_score lower_ascii (lit "Intent:  Node: Node-1 Reason: t")
                (GtStr (lit "Node-1")) one three
  = Some {| score := S754_finite true 4503599627370496 (-50);
            acc := false;
            pred := tag_bad_format ++ lit "Intent:  Node: Node-1 Reason: t" |}.
Proof. vm_compute. reflexivity. Qed.

End ScorerFacts.

(** * Further properties of the extractor and the scorer *)

Module WhitespaceFacts.

Import PyStrFacts SreFacts ExtractorFacts.

Lemma rstrip_all_space r : all_space r -> rstrip r = [].
Proof.
  induction 1 as [|c r Hc _ IH]; simpl; [done|]. by rewrite IH, Hc.
Qed.

Lemma lstrip_all_space l : all_space l -> lstrip l = [].
Proof. intros H. rewrite <- (app_nil_r l). by rewrite lstrip_spaces. Qed.

Lemma strip_all_space l : all_space l -> strip l = [].
Proof. intros H. unfold strip. by rewrite lstrip_all_space. Qed.

(** Whitespace around a text does not show after [strip]. *)
Lemma strip_padded w1 f w2 :
  all_space w1 -> all_space w2 -> strip (w1 ++ f ++ w2) = strip f.
Proof.
  intros H1 H2. unfold strip. rewrite lstrip_spaces by done.
  destruct (lstrip f) as [|c t] eqn:E.
  - destruct (lstrip_split f) as (l & Hf & Hl). rewrite E, app_nil_r in Hf. subst l.
    rewrite lstrip_all_space by by apply Forall_app. done.
  - rewrite lstrip_app_keep by by rewrite E. rewrite E. by apply rstrip_spaces.
Qed.

Lemma strip_fixed t : no_outer_space t -> strip t = t.
Proof.
  intros [Hh Hl]. unfold strip. destruct t as [|c t]; [done|].
  rewrite lstrip_fixed by by apply Hh.
  destruct (c :: t) as [|y u _] using rev_ind; [done|].
  apply rstrip_fixed, Hl, last_snoc.
Qed.

Lemma sub_spaces_rstrip y :
  sub_spaces_from false (rstrip y) = rstrip (sub_spaces_from false y).
Proof.
  destruct (rstrip_split y) as (r & Hy & Hr).
  destruct (rstrip y) as [|c t _] eqn:E using rev_ind.
  - simpl in Hy. subst r. simpl.
    by rewrite rstrip_all_space by by apply all_space_sub_spaces.
  - pose proof (rstrip_last _ _ _ E) as Hc.
    replace (sub_spaces_from false y)
      with (sub_spaces_from false ((t ++ [c]) ++ r)) by by rewrite <- Hy.
    rewrite <- app_assoc. simpl.
    rewrite !sub_spaces_from_app by done.
    simpl. rewrite (cons_middle c _ (sub_spaces_from false r)), app_assoc.
    rewrite rstrip_spaces by by apply all_space_sub_spaces.
    by rewrite rstrip_fixed.
Qed.

(** Trimming and substituting commute. *)
Lemma normalise_alt s : normalise s = strip (sub_spaces s).
Proof.
  unfold normalise, strip, sub_spaces.
  by rewrite sub_spaces_rstrip, sub_spaces_lstrip.
Qed.

Lemma sub_spaces_run b ws t :
  all_space ws -> ws <> [] ->
  sub_spaces_from b (ws ++ t)
  = (if b then [] else [32%N]) ++ sub_spaces_from true t.
Proof.
  intros H Hne. revert b. induction H as [|c ws Hc Hws IH]; intros b; [done|].
  simpl. rewrite Hc. destruct ws as [|c' ws].
  - by destruct b.
  - destruct b; by rewrite IH.
Qed.

Lemma sub_spaces_same_runs b a ws ws' t :
  all_space ws -> ws <> [] -> all_space ws' -> ws' <> [] ->
  sub_spaces_from b (a ++ ws ++ t) = sub_spaces_from b (a ++ ws' ++ t).
Proof.
  intros H1 H2 H3 H4. revert b. induction a as [|c a IH]; intros b; simpl.
  - by rewrite !sub_spaces_run.
  - destruct (is_space c), b; by rewrite IH.
Qed.

Lemma sub_spaces_tidy b t : tidy b t = true -> sub_spaces_from b t = t.
Proof.
  revert b. induction t as [|c t IH]; intros b; simpl; [done|].
  destruct (is_space c).
  - rewrite !andb_true_iff, negb_true_iff. intros [[Hc ->] Ht].
    apply N.eqb_eq in Hc as ->. by rewrite IH.
  - intros Ht. by rewrite IH.
Qed.

Lemma normalise_idempotent s : normalise (normalise s) = normalise s.
Proof.
  unfold normalise at 1. rewrite strip_fixed by apply normalise_no_outer_space.
  apply sub_spaces_tidy, tidy_normalise.
Qed.

Lemma sub_spaces_app_spaces b y r :
  all_space r ->
  exists t, all_space t /\ sub_spaces_from b (y ++ r) = sub_spaces_from b y ++ t.
Proof.
  intros Hr. revert b. induction y as [|c y IH]; intros b; simpl.
  - exists (sub_spaces_from b r). split; [by apply all_space_sub_spaces | done].
  - destruct (is_space c); [destruct b|].
    + apply IH.
    + destruct (IH true) as (t & Ht & ->). by exists t.
    + destruct (IH false) as (t & Ht & ->). by exists t.
Qed.

(** As [sub_spaces_find], with what comes before the stretch as well. *)
Lemma sub_spaces_split b s x L y :
  L <> [] -> no_space L -> sub_spaces_from b s = x ++ L ++ y ->
  exists x' y',
    s = x' ++ L ++ y' /\ sub_spaces_from b x' = x
    /\ sub_spaces_from false y' = y.
Proof.
  intros Hne HL. revert b x. induction s as [|c s IH]; intros b x; simpl.
  - by destruct x, L.
  - destruct (is_space c) eqn:Hc; [destruct b|].
    + intros H. destruct (IH _ _ H) as (x' & y' & -> & <- & <-).
      exists (c :: x'), y'. simpl. by rewrite Hc.
    + destruct x as [|x0 x]; simpl.
      * destruct HL as [|l L Hl _]; [done|]. intros [= <- _].
        by rewrite is_space_32 in Hl.
      * intros [= <- H]. destruct (IH _ _ H) as (x' & y' & -> & <- & <-).
        exists (c :: x'), y'. simpl. by rewrite Hc.
    + destruct x as [|x0 x]; simpl.
      * destruct HL as [|l L Hl HL]; [done|]. simpl. intros [= -> H].
        destruct (sub_spaces_prefix _ _ _ HL H) as (y' & -> & <-).
        by exists [], y'.
      * intros [= <- H]. destruct (IH _ _ H) as (x' & y' & -> & <- & <-).
        exists (c :: x'), y'. simpl. by rewrite Hc.
Qed.

(** A stretch without whitespace stays as it is, and cuts the
    substitution in two. *)
Lemma sub_spaces_around b q L u :
  L <> [] -> no_space L ->
  sub_spaces_from b (q ++ L ++ u)
  = sub_spaces_from b q ++ L ++ sub_spaces_from false u.
Proof.
  intros Hne HL. destruct HL as [|c L Hc HL]; [done|].
  rewrite <- app_comm_cons, sub_spaces_from_app by done.
  by rewrite (sub_spaces_no_space_prefix L u HL).
Qed.

End WhitespaceFacts.

Module ExtractorMore.

Import PyStrFacts SreFacts ExtractorFacts WhitespaceFacts.

Lemma validate_normalise_eq s s' :
  normalise s = normalise s' ->
  validate_and_extract_llm_content s = validate_and_extract_llm_content s'.
Proof.
  intros H. unfold validate_and_extract_llm_content.
  fold (normalise s). fold (normalise s'). by rewrite H.
Qed.

Lemma fields_between_labels content i n r :
  validate_and_extract_llm_content content = (true, Some i, Some n, Some r) ->
  exists x0 I x1 N x2 R x3,
    content = x0 ++ I ++ x1 ++ N ++ x2 ++ R ++ x3
    /\ ci intent_label I /\ ci node_label N /\ ci reason_label R
    /\ i = normalise x1 /\ n = normalise x2 /\ r = normalise x3.
Proof.
  intros H. apply validate_valid_inv in H as (m & Hm & -> & -> & -> & _).
  apply search_sound in Hm as (a & Ha & Hwf & Hr).
  apply reads_groups in Hr as (H1 & H2 & H3). rewrite Ha in H1, H2, H3.
  rewrite H1, H2, H3. clear H1 H2 H3 m.
  destruct a as [pre I w1 fa w2 N w3 fb w4 R w5 z].
  destruct Hwf as (HI & HN & HR & Hw1 & Hw2 & Hw3 & Hw4 & Hw5 & _).
  unfold text_of in Ha. anatomy_simpl.
  destruct (label_found intent_label I) as [? ?]; [by left | done |].
  destruct (label_found node_label N) as [? ?]; [by right; left | done |].
  destruct (label_found reason_label R) as [? ?]; [by right; right | done |].
  unfold normalise at 1 in Ha. unfold sub_spaces in Ha. symmetry in Ha.
  apply sub_spaces_split in Ha as (x0 & y1 & Hs & _ & E1); [|done..].
  replace (w1 ++ fa ++ w2 ++ N ++ w3 ++ fb ++ w4 ++ R ++ w5 ++ z)
    with ((w1 ++ fa ++ w2) ++ N ++ (w3 ++ fb ++ w4 ++ R ++ w5 ++ z)) in E1
    by by rewrite <- !app_assoc.
  apply sub_spaces_split in E1 as (x1 & y2 & -> & Hx1 & E2); [|done..].
  replace (w3 ++ fb ++ w4 ++ R ++ w5 ++ z)
    with ((w3 ++ fb ++ w4) ++ R ++ (w5 ++ z)) in E2
    by by rewrite <- !app_assoc.
  apply sub_spaces_split in E2 as (x2 & y3 & -> & Hx2 & Hy3); [|done..].
  destruct (strip_split content) as (l & rc & Hc & _ & Hrc).
  exists (l ++ x0), I, x1, N, x2, R, (y3 ++ rc).
  split; [|split; [done|split; [done|split; [done|]]]].
  { rewrite Hc, Hs. by rewrite <- !app_assoc. }
  rewrite !normalise_alt. unfold sub_spaces. rewrite Hx1, Hx2.
  destruct (sub_spaces_app_spaces false y3 rc Hrc) as (t & Ht & ->).
  rewrite Hy3, !strip_padded by done.
  split; [done|split; [done|]].
  rewrite <- (strip_padded w5 z t) by done. by rewrite <- app_assoc.
Qed.

(** X1. The three values of a Valid result are the normalised texts that
    stand in the input between an [Intent:] label and a [Node:] label,
    between that and a [Reason:] label, and after it. *)
Theorem valid_fields_between_labels (content i n r : pystr) :
  validate_and_extract_llm_content content = (true, Some i, Some n, Some r) ->
  exists x0 I x1 N x2 R x3,
    content = x0 ++ I ++ x1 ++ N ++ x2 ++ R ++ x3
    /\ ci intent_label I /\ ci node_label N /\ ci reason_label R
    /\ i = normalise x1 /\ n = normalise x2 /\ r = normalise x3.
Proof. apply fields_between_labels. Qed.

Lemma valid_fields_between_labels_witness :
  exists x0 I x1 N x2 R x3,
    lit "so: INTENT:go  on" ++ [10%N] ++ lit "node: n1 Reason: r "
    = x0 ++ I ++ x1 ++ N ++ x2 ++ R ++ x3
    /\ ci intent_label I /\ ci node_label N /\ ci reason_label R
    /\ lit "go on" = normalise x1 /\ lit "n1" = normalise x2
    /\ lit "r" = normalise x3.
Proof.
  apply (valid_fields_between_labels
           (lit "so: INTENT:go  on" ++ [10%N] ++ lit "node: n1 Reason: r ")).
  vm_compute. reflexivity.
Defined.

(** X2. One run of whitespace is as good as another: replacing a run by
    any other run, a newline by a space or several blanks by one, leaves
    the result as it is. *)
Theorem whitespace_runs_interchangeable (a b ws ws' : pystr) :
  all_space ws -> ws <> [] -> all_space ws' -> ws' <> [] ->
  validate_and_extract_llm_content (a ++ ws ++ b)
  = validate_and_extract_llm_content (a ++ ws' ++ b).
Proof.
  intros H1 H2 H3 H4. apply validate_normalise_eq.
  rewrite !normalise_alt. unfold sub_spaces.
  by rewrite (sub_spaces_same_runs false a ws ws' b).
Qed.

Lemma whitespace_runs_interchangeable_witness :
  validate_and_extract_llm_content
    (lit "Intent: a" ++ [10%N; 9%N; 10%N] ++ lit "Node: b Reason: c")
  = validate_and_extract_llm_content
      (lit "Intent: a" ++ [32%N] ++ lit "Node: b Reason: c").
Proof.
  apply whitespace_runs_interchangeable; (by repeat constructor) || discriminate.
Defined.

(** X3. Whitespace before and after the input does not count. *)
Theorem outer_whitespace_ignored (ws s ws' : pystr) :
  all_space ws -> all_space ws' ->
  validate_and_extract_llm_content (ws ++ s ++ ws')
  = validate_and_extract_llm_content s.
Proof.
  intros H1 H2. apply validate_normalise_eq. unfold normalise.
  by rewrite strip_padded.
Qed.

Lemma outer_whitespace_ignored_witness :
  validate_and_extract_llm_content
    ([10%N; 32%N] ++ lit "Intent: a Node: b Reason: c" ++ [13%N; 10%N])
  = validate_and_extract_llm_content (lit "Intent: a Node: b Reason: c").
Proof.
  apply outer_whitespace_ignored; by repeat constructor.
Defined.

(** X4. Normalising the input beforehand changes nothing: the extractor
    gives the same result on the text it has cleaned as on the input. *)
Theorem normalised_input_same_result (content : pystr) :
  validate_and_extract_llm_content (normalise content)
  = validate_and_extract_llm_content content.
Proof. apply validate_normalise_eq, normalise_idempotent. Qed.

End ExtractorMore.

Module MatcherMore.

Import PyStrFacts SreFacts ExtractorFacts WhitespaceFacts.

(** *** Which way a repetition goes *)

(** A greedy repetition that can take a whole run and go on from there
    does so. *)
Lemma rep_greedy_max k min K pos w rest' mk r :
  Forall (fun c => in_cset k c = true) w ->
  (forall c t, rest' = c :: t -> in_cset k c = false) ->
  min <= length w ->
  K (pos + length w) rest' mk = Some r ->
  rep_greedy k min K pos (w ++ rest') mk = Some r.
Proof.
  intros Hw Hnext. revert min pos.
  induction Hw as [|c w Hc Hw IH]; intros min pos Hmin HK; simpl in *.
  - rewrite Nat.add_0_r in HK. assert (min = 0) as -> by lia.
    destruct rest' as [|c t]; simpl; [done|]. by rewrite (Hnext c t eq_refl).
  - rewrite Hc. rewrite (IH (Nat.pred min) (S pos)); [done | lia |].
    by replace (S pos + length w) with (pos + S (length w)) by lia.
Qed.

(** A lazy repetition stops at the first length from which the rest of
    the pattern matches. *)
Lemma rep_lazy_first k min K pos x rest' mk r :
  Forall (fun c => in_cset k c = true) x ->
  min <= length x ->
  (forall j, min <= j -> j < length x ->
             K (pos + j) (drop j x ++ rest') mk = None) ->
  K (pos + length x) rest' mk = Some r ->
  rep_lazy k min K pos (x ++ rest') mk = Some r.
Proof.
  intros Hx. revert min pos.
  induction Hx as [|c x Hc Hx IH]; intros min pos Hmin Hfail HK.
  - simpl in *. assert (min = 0) as -> by lia. rewrite Nat.add_0_r in HK.
    destruct rest'; simpl; by rewrite HK.
  - assert (Hnext : rep_lazy k (Nat.pred min) K (S pos) (x ++ rest') mk = Some r).
    { apply IH.
      - simpl in Hmin. lia.
      - intros j Hj1 Hj2.
        replace (S pos + j) with (pos + S j) by lia.
        apply (Hfail (S j)); simpl; lia.
      - by replace (S pos + length x) with (pos + length (c :: x))
          by (simpl; lia). }
    destruct min as [|min]; simpl.
    + pose proof (Hfail 0 ltac:(lia) ltac:(simpl; lia)) as H0.
      rewrite Nat.add_0_r in H0. simpl in H0. rewrite H0, Hc. exact Hnext.
    + rewrite Hc. exact Hnext.
Qed.

(** After a field the pattern asks for whitespace and the next label. *)
Lemma after_field_needs_label g w P pos rest mk r :
  step (Close g) (step spaces (exec (map (fun c => One (Lit c)) w ++ P)))
       pos rest mk = Some r ->
  exists sp t, rest = sp ++ t /\ all_space sp /\ label_at w t 0.
Proof.
  unfold spaces. cbn [step]. intros H.
  apply rep_greedy_sound in H as (sp & t & -> & Hsp & _ & H).
  rewrite exec_lits in H. destruct (ci_strip w t) as [t'|] eqn:E; [|done].
  apply ci_strip_spec in E as (x & -> & Hx).
  exists sp, (x ++ t'). repeat split; [done|]. by apply (label_at_app w []).
Qed.

(** *** Labels end in the only colon they have *)

Lemma label_last_colon w : is_label w -> w !! (length w - 1) = Some 58%N.
Proof. by intros [->|[->| ->]]. Qed.

Lemma label_letters_no_colon w j p :
  is_label w -> j < length w - 1 -> w !! j = Some p ->
  lit_ignorecase p 58%N = false.
Proof.
  intros [->|[->| ->]] Hj; simpl in Hj;
    do 7 (destruct j as [|j]; [first [by intros [= <-] | lia]|]); lia.
Qed.

Lemma label_inside_gen w P T k :
  k + length w <= length P -> label_at w (P ++ T) k -> label_at w P k.
Proof.
  unfold label_at. intros Hk. rewrite drop_app_le by lia.
  by rewrite take_app_le by (rewrite length_drop; lia).
Qed.

Lemma label_straddle w P Lbl T k :
  is_label w -> ci w Lbl -> k < length P -> length P < k + length w ->
  ~ label_at w (P ++ Lbl ++ T) k.
Proof.
  intros Hw HL Hk1 Hk2 H. pose proof (ci_length _ _ HL) as Hlen.
  assert (0 < length w) by (destruct Hw as [->|[->| ->]]; simpl; lia).
  unfold label_at in H.
  destruct (lookup_lt_is_Some_2 Lbl (k + (length w - 1) - length P))
    as [y Hy]; [lia|].
  assert (HX : take (length w) (drop k (P ++ Lbl ++ T)) !! (length w - 1)
               = Some y).
  { rewrite lookup_take_lt, lookup_drop by lia.
    rewrite lookup_app_r by lia. rewrite lookup_app_l by lia.
    rewrite <- Hy. f_equal; lia. }
  destruct (Forall2_lookup_r _ _ _ _ _ H HX) as (q & Hq & Hqy).
  rewrite label_last_colon in Hq by done.
  injection Hq as <-. apply colon_only_colon in Hqy as ->.
  destruct (Forall2_lookup_r _ _ _ _ _ HL Hy) as (q & Hq & Hqy).
  rewrite (label_letters_no_colon w (k + (length w - 1) - length P) q)
    in Hqy; [done | done | lia | done].
Qed.

Lemma label_at_shift w x t : label_at w t 0 -> label_at w (x ++ t) (length x).
Proof. unfold label_at. by rewrite drop_app_length. Qed.

Lemma occurs_app w x t y : occurs w t -> occurs w (x ++ t ++ y).
Proof.
  intros [k Hk]. destruct (decide (w = [])) as [->|Hw].
  - exists 0. constructor.
  - apply label_at_inv in Hk as (x1 & I & y1 & [(-> & HI & _)|E]); [|done].
    exists (length (x ++ x1)).
    replace (x ++ (x1 ++ I ++ y1) ++ y) with ((x ++ x1) ++ I ++ (y1 ++ y))
      by by rewrite <- !app_assoc.
    by apply label_at_app.
Qed.

Lemma head_no_space_next (L T : pystr) :
  L <> [] -> no_space L ->
  forall c t, L ++ T = c :: t -> in_cset Space c = false.
Proof.
  intros Hne HL c t E. destruct HL as [|l L Hl _]; [done|].
  injection E as <- _. done.
Qed.

(** *** A field between two labels *)

Lemma field_complete g w P pos la f ra Lbl T mk r :
  is_label w -> ci w Lbl -> all_space la -> all_space ra ->
  f <> [] -> no_outer_space f ->
  (forall k, 1 <= k -> ~ label_at w (f ++ ra) k) ->
  exec P (pos + length la + length f + length ra + length w) T
       ((g, false, pos + length la + length f)
          :: (g, true, pos + length la) :: mk) = Some r ->
  step spaces (step (Open g) (step (Rep Any 1 false) (step (Close g)
    (step spaces (exec (map (fun c => One (Lit c)) w ++ P))))))
    pos (la ++ f ++ ra ++ Lbl ++ T) mk = Some r.
Proof.
  intros Hw HL Hla Hra Hne [Hhead Hlast] Hocc HP.
  destruct (label_found _ _ Hw HL) as [HLne HLns].
  set (K2 := step (Close g)
               (step spaces (exec (map (fun c => One (Lit c)) w ++ P)))).
  unfold spaces at 1. cbn [step].
  apply rep_greedy_max; [done | | lia |].
  { intros c t E. destruct f as [|f0 f]; [done|]. injection E as <- _.
    by apply Hhead. }
  apply rep_lazy_first.
  - by apply Forall_true.
  - destruct f; [done | simpl; lia].
  - intros j Hj1 Hj2.
    destruct (K2 (pos + length la + j) (drop j f ++ ra ++ Lbl ++ T)
                 ((g, true, pos + length la) :: mk)) as [r'|] eqn:E; [|done].
    exfalso. apply after_field_needs_label in E as (sp & t & Hst & Hsp & Hlab).
    (* the whitespace taken stops before the end of the field *)
    assert (Hshort : j + length sp < length f).
    { destruct (decide (j + length sp < length f)) as [|Hge]; [done|].
      destruct f as [|f0 f' _] using rev_ind; [done|].
      pose proof (Hlast f0 (last_snoc _ _)) as Hf0.
      rewrite length_app in *. simpl in *.
      assert (Hy : (drop j (f' ++ [f0]) ++ ra ++ Lbl ++ T)
                     !! (length f' - j) = Some f0).
      { rewrite lookup_app_l by (rewrite length_drop, length_app; simpl; lia).
        rewrite lookup_drop, lookup_app_r by lia.
        by replace (j + (length f' - j) - length f') with 0 by lia. }
      rewrite Hst, lookup_app_l in Hy by lia.
      apply list_elem_of_lookup_2 in Hy.
      rewrite (proj1 (Forall_forall _ _) Hsp _ Hy) in Hf0. done. }
    assert (Hat : label_at w ((f ++ ra) ++ Lbl ++ T) (j + length sp)).
    { replace ((f ++ ra) ++ Lbl ++ T)
        with ((take j f ++ sp) ++ t).
      - replace (j + length sp) with (length (take j f ++ sp))
          by (rewrite length_app, length_take; lia).
        by apply label_at_shift.
      - rewrite <- !app_assoc, <- Hst.
        by rewrite !app_assoc, take_drop. }
    destruct (decide (j + length sp + length w <= length (f ++ ra))) as [Hin|Hout].
    + apply label_inside_gen in Hat; [|done]. apply (Hocc (j + length sp)); [lia | done].
    + eapply label_straddle; [exact Hw | exact HL | | | exact Hat].
      * rewrite length_app. lia.
      * lia.
  - subst K2. unfold spaces. cbn [step].
    apply rep_greedy_max; [done | by apply head_no_space_next | lia |].
    rewrite exec_lits.
    assert (E : ci_strip w (Lbl ++ T) = Some T) by (apply ci_strip_spec; eauto).
    by rewrite E.
Qed.

Lemma last_field_complete g pos lc z mk :
  all_space lc -> z <> [] -> (forall x, head z = Some x -> is_space x = false) ->
  step spaces (step (Open g) (step (Rep Any 1 true)
    (step (Close g) (step Eos accept)))) pos (lc ++ z) mk
  = Some (pos + length lc + length z,
          (g, false, pos + length lc + length z)
            :: (g, true, pos + length lc) :: mk).
Proof.
  intros Hlc Hz Hhead.
  set (K := step (Close g) (step Eos accept)).
  unfold spaces. cbn [step].
  apply rep_greedy_max; [done | | lia |].
  { intros c t ->. by apply Hhead. }
  subst K. rewrite rep_greedy_any_plus. by destruct z.
Qed.

(** A label does not reach into whitespace. *)
Lemma label_not_into_spaces w f ra k :
  is_label w -> all_space ra -> label_at w (f ++ ra) k -> label_at w f k.
Proof.
  intros Hw Hra H.
  destruct (decide (k + length w <= length f)) as [Hin|Hout].
  { by eapply label_inside_gen. }
  exfalso. pose proof (label_nonempty w Hw) as Hne.
  assert (0 < length w) by (destruct w; [done | simpl; lia]).
  unfold label_at in H.
  pose proof (ci_length _ _ H) as Hlen.
  destruct (label_found _ _ Hw H) as [_ Hns].
  rewrite length_take, length_drop, length_app in Hlen.
  destruct (lookup_lt_is_Some_2 (take (length w) (drop k (f ++ ra)))
              (length w - 1)) as [y Hy].
  { rewrite length_take, length_drop, length_app. lia. }
  pose proof (proj1 (Forall_forall _ _) Hns y (list_elem_of_lookup_2 _ _ _ Hy))
    as Hy1.
  rewrite lookup_take_lt, lookup_drop, lookup_app_r in Hy by lia.
  apply list_elem_of_lookup_2 in Hy.
  pose proof (proj1 (Forall_forall _ _) Hra y Hy) as Hy2. congruence.
Qed.

(** *** The matcher tries everything *)

Lemma rep_greedy_complete k min K pos x rest' mk :
  Forall (fun c => in_cset k c = true) x -> min <= length x ->
  is_Some (K (pos + length x) rest' mk) ->
  is_Some (rep_greedy k min K pos (x ++ rest') mk).
Proof.
  intros Hx. revert min pos.
  induction Hx as [|c x Hc Hx IH]; intros min pos Hmin HK; simpl in *.
  - rewrite Nat.add_0_r in HK. assert (min = 0) as -> by lia.
    destruct rest' as [|c t]; simpl; [done|].
    destruct (in_cset k c); [|done].
    by destruct (rep_greedy k 0 K (S pos) t mk).
  - rewrite Hc.
    destruct (IH (Nat.pred min) (S pos)) as [r Hr]; [lia | |].
    + by replace (S pos + length x) with (pos + S (length x)) by lia.
    + by rewrite Hr.
Qed.

Lemma rep_lazy_complete k min K pos x rest' mk :
  Forall (fun c => in_cset k c = true) x -> min <= length x ->
  is_Some (K (pos + length x) rest' mk) ->
  is_Some (rep_lazy k min K pos (x ++ rest') mk).
Proof.
  intros Hx. revert min pos.
  induction Hx as [|c x Hc Hx IH]; intros min pos Hmin HK.
  - simpl in *. assert (min = 0) as -> by lia. rewrite Nat.add_0_r in HK.
    destruct HK as [r Hr]. destruct rest'; simpl; by rewrite Hr.
  - assert (Hnext : is_Some (rep_lazy k (Nat.pred min) K (S pos) (x ++ rest') mk)).
    { apply IH; [simpl in Hmin; lia|].
      by replace (S pos + length x) with (pos + length (c :: x))
        by (simpl; lia). }
    destruct min as [|min]; simpl.
    + destruct (K pos (c :: x ++ rest') mk); [done|]. by rewrite Hc.
    + by rewrite Hc.
Qed.

(** A lazy repetition has tried every shorter length before the one it
    settles on. *)
Lemma rep_lazy_sound_min k min K pos rest mk r :
  rep_lazy k min K pos rest mk = Some r ->
  exists x rest',
    rest = x ++ rest' /\ min <= length x
    /\ K (pos + length x) rest' mk = Some r
    /\ forall j, min <= j -> j < length x ->
                 K (pos + j) (drop j x ++ rest') mk = None.
Proof.
  revert min pos. induction rest as [|c rest IH]; intros min pos.
  - destruct min; simpl; [|done].
    destruct (K pos [] mk) as [r'|] eqn:E; [|done]. intros [= ->].
    exists [], []. simpl. rewrite Nat.add_0_r. repeat split; [done..|].
    intros j _ Hj. lia.
  - assert (Hmore :
      (0 < min \/ K pos (c :: rest) mk = None) ->
      (if in_cset k c then rep_lazy k (Nat.pred min) K (S pos) rest mk else None)
      = Some r ->
      exists x rest',
        c :: rest = x ++ rest' /\ min <= length x
        /\ K (pos + length x) rest' mk = Some r
        /\ forall j, min <= j -> j < length x ->
                     K (pos + j) (drop j x ++ rest') mk = None).
    { intros Hmin'. destruct (in_cset k c) eqn:Hc; [|done]. intros E.
      destruct (IH _ _ E) as (x & rest' & -> & Hmin & HK & Hfail).
      exists (c :: x), rest'. simpl. repeat split; [lia | |].
      - by replace (pos + S (length x)) with (S pos + length x) by lia.
      - intros [|j] Hj1 Hj2.
        + simpl. rewrite Nat.add_0_r.
          destruct Hmin' as [?|HN]; [lia | done].
        + simpl. replace (pos + S j) with (S pos + j) by lia.
          apply Hfail; lia. }
    destruct min; simpl.
    + destruct (K pos (c :: rest) mk) as [r'|] eqn:E.
      * intros [= ->]. exists [], (c :: rest). simpl. rewrite Nat.add_0_r.
        repeat split; [done..|]. intros j _ Hj. lia.
      * apply Hmore. by right.
    + apply Hmore. left. lia.
Qed.

(** *** No closing label inside a captured value *)

Lemma field_sound_min g K pos rest mk r :
  step spaces (step (Open g) (step (Rep Any 1 false)
    (step (Close g) (step spaces K)))) pos rest mk = Some r ->
  exists w1 a w2 rest',
    rest = w1 ++ a ++ w2 ++ rest' /\ all_space w1 /\ a <> [] /\ all_space w2
    /\ K (pos + length w1 + length a + length w2) rest'
         ((g, false, pos + length w1 + length a)
            :: (g, true, pos + length w1) :: mk) = Some r
    /\ forall j, 1 <= j -> j < length a ->
         step (Close g) (step spaces K) (pos + length w1 + j)
              (drop j a ++ w2 ++ rest') ((g, true, pos + length w1) :: mk)
         = None.
Proof.
  unfold spaces. cbn [step]. intros H.
  apply rep_greedy_sound in H as (w1 & r1 & -> & Hw1 & _ & H).
  apply rep_lazy_sound_min in H as (a & r2 & -> & Ha & H & Hfail).
  apply rep_greedy_sound in H as (w2 & r3 & -> & Hw2 & _ & H).
  exists w1, a, w2, r3. repeat split; try done.
  intros ->. simpl in Ha. lia.
Qed.

Lemma closing_label_tried g w P pos L T mk :
  ci w L ->
  is_Some (exec P (pos + length w) T ((g, false, pos) :: mk)) ->
  is_Some (step (Close g)
             (step spaces (exec (map (fun c => One (Lit c)) w ++ P)))
             pos (L ++ T) mk).
Proof.
  intros HL H. unfold spaces. cbn [step].
  apply (rep_greedy_complete Space 0 _ pos [] (L ++ T)); [constructor | simpl; lia |].
  simpl. rewrite Nat.add_0_r, exec_lits.
  assert (ci_strip w (L ++ T) = Some T) as -> by (apply ci_strip_spec; eauto).
  done.
Qed.

Lemma field_tried g K pos y w2 T mk :
  y <> [] -> all_space w2 ->
  is_Some (K (pos + length y + length w2) T
             ((g, false, pos + length y) :: (g, true, pos) :: mk)) ->
  is_Some (step spaces (step (Open g) (step (Rep Any 1 false)
             (step (Close g) (step spaces K)))) pos (y ++ w2 ++ T) mk).
Proof.
  intros Hy Hw2 H. unfold spaces. cbn [step].
  apply (rep_greedy_complete Space 0 _ pos [] (y ++ w2 ++ T));
    [constructor | simpl; lia |].
  simpl. rewrite Nat.add_0_r.
  apply rep_lazy_complete; [by apply Forall_true | destruct y; [done | simpl; lia] |].
  by apply rep_greedy_complete; [| lia |].
Qed.

Lemma last_field_tried g pos w z mk :
  all_space w -> z <> [] ->
  is_Some (step spaces (step (Open g) (step (Rep Any 1 true)
             (step (Close g) (step Eos accept)))) pos (w ++ z) mk).
Proof.
  intros Hw Hz. set (K := step (Close g) (step Eos accept)).
  unfold spaces. cbn [step].
  apply rep_greedy_complete; [done | lia |]. cbv beta. subst K.
  rewrite rep_greedy_any_plus. by destruct z.
Qed.

(** The anatomy of a match, with the reluctance of the first two groups:
    the label that closes a value does not begin inside it, after its
    first character. *)
Lemma exec_pattern_minimal pre rest e mk :
  exec pattern (length pre) rest [] = Some (e, mk) ->
  exists a,
    text_of a = pre ++ rest /\ well_formed a
    /\ reads (MatchObj (length pre) e mk) a
    /\ (forall k, 1 <= k -> ~ label_at node_label (a_intent a) k)
    /\ (forall k, 1 <= k -> ~ label_at reason_label (a_node a) k).
Proof.
  unfold pattern, lits. intros H.
  rewrite exec_lits in H.
  destruct (ci_strip (lit "Intent:") rest) as [r1|] eqn:E1; [|done].
  apply ci_strip_spec in E1 as (I & -> & HI).
  cbn [app exec] in H.
  apply field_sound_min in H as (w1 & a & w2 & r2 & -> & Hw1 & Ha & Hw2 & H & F1).
  rewrite exec_lits in H.
  destruct (ci_strip (lit "Node:") r2) as [r3|] eqn:E2; [|done].
  apply ci_strip_spec in E2 as (N & -> & HN).
  cbn [app exec] in H.
  apply field_sound_min in H as (w3 & b & w4 & r4 & -> & Hw3 & Hb & Hw4 & H & F2).
  rewrite exec_lits in H.
  destruct (ci_strip (lit "Reason:") r4) as [r5|] eqn:E3; [|done].
  apply ci_strip_spec in E3 as (R & -> & HR).
  cbn [app exec] in H.
  eapply last_field_sound in H as (w5 & z & -> & Hw5 & Hz & -> & ->); [|done].
  exists (Anatomy pre I w1 a w2 N w3 b w4 R w5 z).
  split; [done|]. split; [by repeat split|]. split.
  { unfold reads, span, intent_start, node_start, reason_start. cbn.
    rewrite (ci_length _ _ HI), (ci_length _ _ HN), (ci_length _ _ HR).
    repeat split; do 2 f_equal; cbn; lia. }
  assert (HNne : N <> []).
  { intros ->. by inversion HN. }
  assert (HRne : R <> []).
  { intros ->. by inversion HR. }
  cbn [a_intent a_node]. split; intros k Hk Hat.
  - apply label_at_inv in Hat as (x & L & y & [(-> & HL & Hx)|?]); [|done].
    pose proof (ci_length _ _ HL) as HLlen.
    change (length node_label) with 5 in HLlen.
    specialize (F1 k Hk). rewrite !length_app in F1.
    specialize (F1 ltac:(lia)).
    rewrite <- Hx, drop_app_length in F1.
    apply eq_None_not_Some in F1. apply F1.
    rewrite <- !app_assoc. apply closing_label_tried; [done|].
    cbn [app exec].
    replace (y ++ w2 ++ N ++ w3 ++ b ++ w4 ++ R ++ w5 ++ z)
      with ((y ++ w2 ++ N ++ w3 ++ b) ++ w4 ++ R ++ w5 ++ z)
      by by rewrite <- !app_assoc.
    apply field_tried; [|done|].
    { intros E. apply (f_equal length) in E. rewrite !length_app in E.
      destruct N; [done | simpl in E; lia]. }
    rewrite exec_lits.
    assert (ci_strip (lit "Reason:") (R ++ w5 ++ z) = Some (w5 ++ z)) as ->
      by (apply ci_strip_spec; eauto).
    cbn [app exec]. by apply last_field_tried.
  - apply label_at_inv in Hat as (x & L & y & [(-> & HL & Hx)|?]); [|done].
    pose proof (ci_length _ _ HL) as HLlen.
    change (length reason_label) with 7 in HLlen.
    specialize (F2 k Hk). rewrite !length_app in F2.
    specialize (F2 ltac:(lia)).
    rewrite <- Hx, drop_app_length in F2.
    apply eq_None_not_Some in F2. apply F2.
    rewrite <- !app_assoc. apply closing_label_tried; [done|].
    cbn [app exec].
    apply (last_field_tried Greason _ [] (y ++ w4 ++ R ++ w5 ++ z));
      [constructor|].
    intros E. apply (f_equal length) in E. rewrite !length_app in E.
    destruct R; [done | simpl in E; lia].
Qed.

Lemma search_from_minimal pre rest m :
  search_from pattern (length pre) rest = Some m ->
  exists a,
    text_of a = pre ++ rest /\ well_formed a /\ reads m a
    /\ (forall k, 1 <= k -> ~ label_at node_label (a_intent a) k)
    /\ (forall k, 1 <= k -> ~ label_at reason_label (a_node a) k).
Proof.
  revert pre. induction rest as [|x rest IH]; intros pre; cbn [search_from].
  - destruct (exec pattern (length pre) [] []) as [[e mk]|] eqn:E; [|done].
    intros [= <-]. by apply exec_pattern_minimal.
  - destruct (exec pattern (length pre) (x :: rest) []) as [[e mk]|] eqn:E.
    + intros [= <-]. by apply exec_pattern_minimal.
    + intros H. replace (S (length pre)) with (length (pre ++ [x])) in H
        by (rewrite length_app; simpl; lia).
      destruct (IH _ H) as (a & Ha & ?). exists a.
      by rewrite Ha, <- app_assoc.
Qed.

(** *** The pattern on a plain text *)

Lemma exec_pattern_plain pos I la fa ra N lb fb rb R lc z :
  ci intent_label I -> ci node_label N -> ci reason_label R ->
  all_space la -> all_space ra -> all_space lb -> all_space rb ->
  all_space lc ->
  fa <> [] -> no_outer_space fa -> fb <> [] -> no_outer_space fb ->
  z <> [] -> (forall x, head z = Some x -> is_space x = false) ->
  (forall k, 1 <= k -> ~ label_at node_label (fa ++ ra) k) ->
  (forall k, 1 <= k -> ~ label_at reason_label (fb ++ rb) k) ->
  let s1 := pos + 7 + length la in
  let e1 := s1 + length fa in
  let s2 := e1 + length ra + 5 + length lb in
  let e2 := s2 + length fb in
  let s3 := e2 + length rb + 7 + length lc in
  let e3 := s3 + length z in
  exec pattern pos
       (I ++ la ++ fa ++ ra ++ N ++ lb ++ fb ++ rb ++ R ++ lc ++ z) []
  = Some (e3, [(Greason, false, e3); (Greason, true, s3);
               (Gnode, false, e2); (Gnode, true, s2);
               (Gintent, false, e1); (Gintent, true, s1)]).
Proof.
  intros HI HN HR Hla Hra Hlb Hrb Hlc Hfa Hfa' Hfb Hfb' Hz Hz' Hn Hr.
  intros s1 e1 s2 e2 s3 e3.
  unfold pattern, lits. rewrite exec_lits.
  assert (E : forall T, ci_strip (lit "Intent:") (I ++ T) = Some T)
    by (intros T; apply ci_strip_spec; eauto).
  rewrite E. cbn [app exec].
  apply field_complete; try done; [by right; left|].
  cbn [app exec].
  apply field_complete; try done; [by right; right|].
  cbn [app exec]. rewrite last_field_complete by done.
  change (length (lit "Intent:")) with 7.
  change (length (lit "Node:")) with 5.
  change (length (lit "Reason:")) with 7.
  subst s1 e1 s2 e2 s3 e3.
  repeat (f_equal; try lia).
Qed.

End MatcherMore.

Module PlainInputs.

Import PyStrFacts SreFacts ExtractorFacts WhitespaceFacts MatcherMore.

Lemma search_from_hit p pos rest e mk :
  exec p pos rest [] = Some (e, mk) ->
  search_from p pos rest = Some (MatchObj pos e mk).
Proof. intros H. destruct rest; simpl; by rewrite H. Qed.

Lemma sub_spaces_parts a :
  exists la ra,
    all_space la /\ all_space ra
    /\ sub_spaces_from false a = la ++ normalise a ++ ra.
Proof.
  destruct (strip_split (sub_spaces_from false a)) as (la & ra & H & ? & ?).
  exists la, ra. by rewrite normalise_alt.
Qed.

Lemma no_label_in_normalised w a :
  is_label w -> ~ occurs w a -> ~ occurs w (normalise a).
Proof.
  intros Hw Hocc [k Hk]. apply Hocc. unfold normalise, sub_spaces in Hk.
  apply label_at_sub_spaces in Hk as [k' Hk']; [|done].
  unfold strip in Hk'. destruct (rstrip_split (lstrip a)) as (r & E & _).
  apply (label_at_lstrip w a (k')); [done|]. rewrite E.
  destruct (decide (w = [])) as [->|Hne]; [constructor|].
  apply label_at_inv in Hk' as (x1 & I & y1 & [(-> & HI & <-)|Ew]); [|done].
  rewrite <- !app_assoc. by apply label_at_app.
Qed.

Lemma no_label_after_start w f ra :
  is_label w -> all_space ra ->
  (forall k, 1 <= k -> ~ label_at w f k) ->
  forall k, 1 <= k -> ~ label_at w (f ++ ra) k.
Proof.
  intros Hw Hra H k Hk Hat. apply (H k Hk). by eapply label_not_into_spaces.
Qed.

(** The normalised form of a text made of the three labels and what is
    between them. *)
Lemma normalise_plain I a N b R c :
  ci intent_label I -> ci node_label N -> ci reason_label R ->
  normalise c <> [] ->
  exists la ra lb rb lc,
    all_space la /\ all_space ra /\ all_space lb /\ all_space rb
    /\ all_space lc
    /\ sub_spaces_from false a = la ++ normalise a ++ ra
    /\ sub_spaces_from false b = lb ++ normalise b ++ rb
    /\ normalise (I ++ a ++ N ++ b ++ R ++ c)
       = I ++ la ++ normalise a ++ ra ++ N ++ lb ++ normalise b ++ rb
           ++ R ++ lc ++ normalise c.
Proof.
  intros HI HN HR Hc.
  destruct (label_found intent_label I) as [HIne HIns]; [by left | done |].
  destruct (label_found node_label N) as [? ?]; [by right; left | done |].
  destruct (label_found reason_label R) as [? ?]; [by right; right | done |].
  destruct (sub_spaces_parts a) as (la & ra & Hla & Hra & Ea).
  destruct (sub_spaces_parts b) as (lb & rb & Hlb & Hrb & Eb).
  destruct (sub_spaces_parts c) as (lc & rc & Hlc & Hrc & Ec).
  exists la, ra, lb, rb, lc. do 7 (split; [done|]).
  rewrite normalise_alt. unfold sub_spaces.
  rewrite (sub_spaces_no_space_prefix I) by done.
  rewrite !sub_spaces_around by done. rewrite Ea, Eb, Ec.
  set (X := I ++ la ++ normalise a ++ ra ++ N ++ lb ++ normalise b ++ rb
              ++ R ++ lc ++ normalise c).
  replace (I ++ (la ++ normalise a ++ ra) ++ N ++ (lb ++ normalise b ++ rb)
             ++ R ++ lc ++ normalise c ++ rc)
    with ([] ++ X ++ rc) by (unfold X; by rewrite <- !app_assoc).
  rewrite strip_padded by (done || constructor).
  apply strip_fixed. split; intros x Hx.
  - unfold X in Hx. destruct HIns as [|i0 I' Hi0 _]; [done|].
    simpl in Hx. by injection Hx as <-.
  - destruct (normalise_no_outer_space c) as [_ Hlast]. apply Hlast.
    unfold X in Hx. rewrite !app_assoc, last_app in Hx.
    destruct (last (normalise c)) as [y|] eqn:E; [done|].
    by apply last_None in E.
Qed.

(** The values are read as written as soon as the closing label of a
    value does not begin inside it, after its first character. *)
Lemma fields_read_as_written (pre I a N b R c : pystr) :
  ci intent_label I -> ci node_label N -> ci reason_label R ->
  ~ occurs intent_label pre ->
  (forall k, 1 <= k -> ~ label_at node_label (normalise a) k) ->
  (forall k, 1 <= k -> ~ label_at reason_label (normalise b) k) ->
  normalise a <> [] -> normalise b <> [] -> normalise c <> [] ->
  validate_and_extract_llm_content (pre ++ I ++ a ++ N ++ b ++ R ++ c)
  = (true, Some (normalise a), Some (normalise b), Some (normalise c)).
Proof.
  intros HI HN HR Hpre Ha Hb Hna Hnb Hnc.
  rewrite prefix_discarded; [|done | by apply (label_at_app _ [])].
  destruct (normalise_plain I a N b R c HI HN HR Hnc)
    as (la & ra & lb & rb & lc & Hla & Hra & Hlb & Hrb & Hlc & Ea & Eb & E).
  unfold validate_and_extract_llm_content.
  fold (normalise (I ++ a ++ N ++ b ++ R ++ c)). rewrite E.
  assert (Hex := exec_pattern_plain 0 I la (normalise a) ra N lb (normalise b)
                  rb R lc (normalise c) HI HN HR Hla Hra Hlb Hrb Hlc Hna
                  (normalise_no_outer_space a) Hnb (normalise_no_outer_space b)
                  Hnc (proj1 (normalise_no_outer_space c))
                  (no_label_after_start _ _ _ ltac:(by right; left) Hra Ha)
                  (no_label_after_start _ _ _ ltac:(by right; right) Hrb Hb)).
  cbv zeta in Hex. apply search_from_hit in Hex. fold (search pattern) in Hex.
  unfold search at 1. rewrite Hex.
  pose proof (ci_length _ _ HI) as LI. pose proof (ci_length _ _ HN) as LN.
  pose proof (ci_length _ _ HR) as LR.
  change (length intent_label) with 7 in LI.
  change (length node_label) with 5 in LN.
  change (length reason_label) with 7 in LR.
  match type of Hex with _ = Some ?mo => set (m := mo) in * end.
  cbv iota beta.
  assert (S1 : span m Gintent
               = Some (0 + 7 + length la,
                       0 + 7 + length la + length (normalise a)))
    by reflexivity.
  assert (S2 : span m Gnode
               = Some (0 + 7 + length la + length (normalise a) + length ra
                       + 5 + length lb,
                       0 + 7 + length la + length (normalise a) + length ra
                       + 5 + length lb + length (normalise b)))
    by reflexivity.
  assert (S3 : span m Greason
               = Some (0 + 7 + length la + length (normalise a) + length ra
                       + 5 + length lb + length (normalise b) + length rb + 7
                       + length lc,
                       0 + 7 + length la + length (normalise a) + length ra
                       + 5 + length lb + length (normalise b) + length rb + 7
                       + length lc + length (normalise c)))
    by reflexivity.
  unfold m_group. rewrite S1, S2, S3. clearbody m.
  replace (I ++ la ++ normalise a ++ ra ++ N ++ lb ++ normalise b ++ rb
             ++ R ++ lc ++ normalise c)
    with ((I ++ la) ++ normalise a
            ++ (ra ++ N ++ lb ++ normalise b ++ rb ++ R ++ lc ++ normalise c))
    by by rewrite <- !app_assoc.
  rewrite (slice_mid (I ++ la) (normalise a)) by (rewrite ?length_app; lia).
  replace ((I ++ la) ++ normalise a
            ++ (ra ++ N ++ lb ++ normalise b ++ rb ++ R ++ lc ++ normalise c))
    with (I ++ la ++ normalise a ++ ra ++ N ++ lb ++ normalise b ++ rb
             ++ R ++ lc ++ normalise c)
    by by rewrite <- !app_assoc.
  replace (I ++ la ++ normalise a ++ ra ++ N ++ lb ++ normalise b ++ rb
             ++ R ++ lc ++ normalise c)
    with ((I ++ la ++ normalise a ++ ra ++ N ++ lb) ++ normalise b
            ++ (rb ++ R ++ lc ++ normalise c)) by by rewrite <- !app_assoc.
  rewrite (slice_mid (I ++ la ++ normalise a ++ ra ++ N ++ lb) (normalise b))
    by (rewrite ?length_app; lia).
  replace ((I ++ la ++ normalise a ++ ra ++ N ++ lb) ++ normalise b
             ++ (rb ++ R ++ lc ++ normalise c))
    with ((I ++ la ++ normalise a ++ ra ++ N ++ lb ++ normalise b ++ rb
             ++ R ++ lc) ++ normalise c ++ []) by by rewrite <- !app_assoc, app_nil_r.
  rewrite (slice_mid _ (normalise c) []) by (rewrite ?length_app; lia).
  rewrite !strip_fixed by apply normalise_no_outer_space.
  destruct (normalise a), (normalise b), (normalise c); done.
Qed.

(** X5. A plain input is read as written.  When the input consists of
    some text without [Intent:], the three labels, and between and after
    them texts that are not blank and do not hold the label that ends
    them, the result is Valid and its values are these texts,
    normalised. *)
Theorem plain_input_extraction (pre I a N b R c : pystr) :
  ci intent_label I -> ci node_label N -> ci reason_label R ->
  ~ occurs intent_label pre -> ~ occurs node_label a ->
  ~ occurs reason_label b ->
  normalise a <> [] -> normalise b <> [] -> normalise c <> [] ->
  validate_and_extract_llm_content (pre ++ I ++ a ++ N ++ b ++ R ++ c)
  = (true, Some (normalise a), Some (normalise b), Some (normalise c)).
Proof.
  intros HI HN HR Hpre Ha Hb Hna Hnb Hnc.
  apply fields_read_as_written; try done.
  - intros k _ Hk. apply (no_label_in_normalised node_label a); [by right; left | done |].
    by exists k.
  - intros k _ Hk. apply (no_label_in_normalised reason_label b); [by right; right | done |].
    by exists k.
Qed.

Lemma plain_input_extraction_witness :
  validate_and_extract_llm_content
    (lit "note " ++ lit "INTENT:" ++ lit " go   on " ++ lit "node:"
       ++ lit " n1 " ++ lit "Reason:" ++ lit " why ")
  = (true, Some (lit "go on"), Some (lit "n1"), Some (lit "why")).
Proof.
  apply (plain_input_extraction (lit "note ") (lit "INTENT:") (lit " go   on ")
           (lit "node:") (lit " n1 ") (lit "Reason:") (lit " why ")).
  - repeat constructor.
  - repeat constructor.
  - repeat constructor.
  - apply no_occurrence; [discriminate | reflexivity].
  - apply no_occurrence; [discriminate | reflexivity].
  - apply no_occurrence; [discriminate | reflexivity].
  - discriminate.
  - discriminate.
  - discriminate.
Defined.

End PlainInputs.

Module ReadingBack.

Import PyStrFacts SreFacts ExtractorFacts WhitespaceFacts MatcherMore PlainInputs.

Lemma label_at_inside w l f r k :
  w <> [] -> label_at w f k -> label_at w (l ++ f ++ r) (length l + k).
Proof.
  intros Hw H. apply label_at_inv in H as (x & L & y & [(-> & HL & <-)|?]);
    [|done].
  replace (l ++ (x ++ L ++ y) ++ r) with ((l ++ x) ++ L ++ (y ++ r))
    by by rewrite <- !app_assoc.
  rewrite <- length_app. by apply label_at_app.
Qed.

Lemma normalise_padded w1 f w2 :
  all_space w1 -> all_space w2 -> normalise (w1 ++ f ++ w2) = normalise f.
Proof. intros H1 H2. unfold normalise. by rewrite strip_padded. Qed.

Lemma normalise_field c m g :
  tidy false c = true ->
  normalise (strip (m_group c m g)) = strip (m_group c m g).
Proof.
  intros Hc. unfold normalise.
  rewrite (strip_fixed (strip _)) by apply strip_no_outer_space.
  by apply sub_spaces_tidy, tidy_strip, m_group_tidy.
Qed.

Lemma no_label_in_stripped w f :
  w <> [] ->
  (forall k, 1 <= k -> ~ label_at w f k) ->
  forall k, 1 <= k -> ~ label_at w (strip f) k.
Proof.
  intros Hw H k Hk Hat. destruct (strip_split f) as (l & r & E & _).
  apply (H (length l + k)); [lia|]. rewrite E. by apply label_at_inside.
Qed.

(** What the three values of a Valid result look like. *)
Lemma valid_fields_shape content i n r :
  validate_and_extract_llm_content content = (true, Some i, Some n, Some r) ->
  (i <> [] /\ normalise i = i
   /\ forall k, 1 <= k -> ~ label_at node_label i k)
  /\ (n <> [] /\ normalise n = n
      /\ forall k, 1 <= k -> ~ label_at reason_label n k)
  /\ (r <> [] /\ normalise r = r).
Proof.
  intros H.
  apply validate_valid_inv in H as (m & Hm & -> & -> & -> & Hi & Hn & Hr).
  pose proof (tidy_normalise content) as Ht.
  rewrite !normalise_field by done.
  unfold search in Hm.
  apply (search_from_minimal []) in Hm as (a & Ha & _ & Hreads & M1 & M2).
  simpl in Ha. rewrite <- Ha in *.
  destruct (reads_groups a m Hreads) as (E1 & E2 & E3).
  rewrite E1, E2 in *.
  repeat split; try done.
  - by apply no_label_in_stripped.
  - by apply no_label_in_stripped.
Qed.

(** X6. The closing label of a value never begins inside it: in a Valid
    result the intent holds no [Node:] and the node holds no [Reason:],
    in any case of the letters, except possibly as the very beginning of
    the value. *)
Theorem value_holds_no_closing_label (content i n r : pystr) (k : nat) :
  validate_and_extract_llm_content content = (true, Some i, Some n, Some r) ->
  1 <= k ->
  ~ label_at node_label i k /\ ~ label_at reason_label n k.
Proof.
  intros H Hk.
  destruct (valid_fields_shape _ _ _ _ H) as ((_ & _ & H1) & (_ & _ & H2) & _).
  split; [by apply H1 | by apply H2].
Qed.

Lemma value_holds_no_closing_label_witness :
  ~ label_at node_label (lit "Node: a") 1
  /\ ~ label_at reason_label (lit "b") 1.
Proof.
  apply (value_holds_no_closing_label
           (lit "Intent: Node: a Node: b Reason: c")
           (lit "Node: a") (lit "b") (lit "c") 1).
  - vm_compute; reflexivity.
  - lia.
Defined.

Lemma template_read tag i n r :
  ~ occurs intent_label tag ->
  i <> [] -> normalise i = i ->
  (forall k, 1 <= k -> ~ label_at node_label i k) ->
  n <> [] -> normalise n = n ->
  (forall k, 1 <= k -> ~ label_at reason_label n k) ->
  r <> [] -> normalise r = r ->
  validate_and_extract_llm_content (template tag (Some i) (Some n) (Some r))
  = (true, Some i, Some n, Some r).
Proof.
  intros Htag Hi Ei Mi Hn En Mn Hr Er.
  assert (Hsp : all_space [32%N]) by by repeat constructor.
  assert (Hnl : all_space [10%N]) by by repeat constructor.
  pose proof (normalise_padded [32%N] i [10%N] Hsp Hnl) as Na.
  pose proof (normalise_padded [32%N] n [10%N] Hsp Hnl) as Nb.
  pose proof (normalise_padded [32%N] r [] Hsp ltac:(constructor)) as Nc.
  rewrite app_nil_r in Nc. rewrite Ei in Na. rewrite En in Nb. rewrite Er in Nc.
  unfold template, fmt.
  replace (tag ++ lit "Intent: " ++ i ++ [10%N] ++ lit "Node: " ++ n
               ++ [10%N] ++ lit "Reason: " ++ r)
    with (tag ++ lit "Intent:" ++ ([32%N] ++ i ++ [10%N]) ++ lit "Node:"
              ++ ([32%N] ++ n ++ [10%N]) ++ lit "Reason:" ++ ([32%N] ++ r))
    by (by rewrite <- !app_assoc).
  rewrite <- Na at 2. rewrite <- Nb at 2. rewrite <- Nc at 2.
  apply fields_read_as_written; rewrite ?Na, ?Nb, ?Nc; try done.
  - repeat constructor.
  - repeat constructor.
  - repeat constructor.
Qed.

(** X7. The extractor reads back what the scorer writes.  The text
    [Intent: i], [Node: n], [Reason: r] on three lines, built from the
    values of any Valid result and put after any text that holds no
    [Intent:], is itself Valid with the same three values. *)
Theorem template_reads_back (content tag i n r : pystr) :
  validate_and_extract_llm_content content = (true, Some i, Some n, Some r) ->
  ~ occurs intent_label tag ->
  validate_and_extract_llm_content (template tag (Some i) (Some n) (Some r))
  = (true, Some i, Some n, Some r).
Proof.
  intros H Htag.
  destruct (valid_fields_shape _ _ _ _ H)
    as ((? & ? & ?) & (? & ? & ?) & ? & ?).
  by apply template_read.
Qed.

Lemma template_reads_back_witness :
  validate_and_extract_llm_content
    (template (lit "[ok]") (Some (lit "Node: a")) (Some (lit "b"))
              (Some (lit "c d")))
  = (true, Some (lit "Node: a"), Some (lit "b"), Some (lit "c d")).
Proof.
  apply (template_reads_back (lit "intent:  Node: a NODE: b reason: c   d ")).
  - vm_compute; reflexivity.
  - apply no_occurrence; [discriminate | reflexivity].
Defined.

End ReadingBack.

Module CaseBlind.

Import PyStrFacts SreFacts ExtractorFacts.

(** X8. The extractor does not look at the case of ASCII letters, in the
    labels or anywhere else: two inputs that differ only in it are both
    Invalid, or both Valid with values that differ only in the case of
    ASCII letters. *)
Theorem extraction_case_blind (s s' : pystr) :
  recased s s' ->
  (validate_and_extract_llm_content s = Invalid
   /\ validate_and_extract_llm_content s' = Invalid)
  \/ exists i n r i' n' r',
       validate_and_extract_llm_content s = (true, Some i, Some n, Some r)
       /\ validate_and_extract_llm_content s'
          = (true, Some i', Some n', Some r')
       /\ recased i i' /\ recased n n' /\ recased r r'.
Proof.
  intros H. unfold validate_and_extract_llm_content.
  fold (normalise s). fold (normalise s'). rewrite (search_case_blind _ _ H).
  apply normalise_recased in H.
  destruct (search pattern (normalise s)) as [m|]; [|by left].
  rewrite <- !(truthy_recased _ _ (field_recased _ _ m _ H)).
  destruct (negb _); [by left|]. right.
  do 6 eexists. split; [done|]. split; [done|].
  repeat split; by apply recased_Forall2, field_recased.
Qed.

Lemma extraction_case_blind_witness :
  (validate_and_extract_llm_content (lit "Intent: Go Node: N1 Reason: ok")
   = Invalid
   /\ validate_and_extract_llm_content (lit "INTENT: go node: n1 REASON: OK")
      = Invalid)
  \/ exists i n r i' n' r',
       validate_and_extract_llm_content (lit "Intent: Go Node: N1 Reason: ok")
       = (true, Some i, Some n, Some r)
       /\ validate_and_extract_llm_content
            (lit "INTENT: go node: n1 REASON: OK")
          = (true, Some i', Some n', Some r')
       /\ recased i i' /\ recased n n' /\ recased r r'.
Proof.
  apply (extraction_case_blind (lit "Intent: Go Node: N1 Reason: ok")
                               (lit "INTENT: go node: n1 REASON: OK")).
  reflexivity.
Defined.

End CaseBlind.

Module ScorerMore.

Import PyStrFacts SreFacts ExtractorFacts Float64Facts ScorerFacts
       WhitespaceFacts ExtractorMore ReadingBack.

Section WithLower.

Variable str_lower : pystr -> pystr.

(** X9. The scorer always returns a result: the [node] it lower-cases is
    never [None].  [acc] is true exactly when the solution is Valid and
    its node, lower-cased, is one of the trimmed, lower-cased candidates
    of the ground truth. *)
Theorem result_always_and_acc (solution_str : pystr) (gt : ground_truth)
    (std_format std_acc : float) :
  exists res,
    compute_score str_lower solution_str gt std_format std_acc = Some res
    /\ (acc res = true
        <-> exists i n r,
              validate_and_extract_llm_content solution_str
              = (true, Some i, Some n, Some r)
              /\ str_lower n ∈ candidates str_lower gt).
Proof.
  unfold compute_score. rewrite true_nodes_candidates.
  destruct (validate_cases solution_str) as [->|(m & _ & _ & _ & _ & ->)].
  - eexists. split; [done|]. simpl. split; [done|].
    by intros (i & n & r & ? & _).
  - destruct (bool_decide _) eqn:E; eexists; (split; [done|]); simpl.
    + split; [|done]. intros _. do 3 eexists. split; [done|].
      by apply bool_decide_eq_true in E.
    + split; [done|]. intros (i & n & r & [= _ <- _] & Hin).
      apply bool_decide_eq_false in E. done.
Qed.

(** X10. Only the set of candidates of the ground truth matters: two
    sequences with the same elements, in any order and with any
    repetitions, give the same result. *)
Theorem ground_truth_as_set (solution_str : pystr) (l l' : list pystr)
    (std_format std_acc : float) :
  (forall x, x ∈ l <-> x ∈ l') ->
  compute_score str_lower solution_str (GtSeq l) std_format std_acc
  = compute_score str_lower solution_str (GtSeq l') std_format std_acc.
Proof.
  intros H. apply compute_score_ext. unfold candidates. simpl.
  apply set_eq. intros x. rewrite !elem_of_list_to_set, !list_elem_of_fmap.
  split; intros (y & -> & Hy); exists y; (split; [done|]); by apply H.
Qed.

Lemma tags_hold_no_label :
  ~ occurs intent_label tag_good_node /\ ~ occurs intent_label tag_bad_node.
Proof.
  split; (apply no_occurrence; [discriminate | reflexivity]).
Qed.

(** X11. Scoring the [pred] text of a Valid solution gives the same
    result again, [pred] included: the scorer's output is a fixed point
    of the scorer. *)
Theorem rescoring_pred_is_stable (solution_str i n r : pystr)
    (gt : ground_truth) (std_format std_acc : float) :
  validate_and_extract_llm_content solution_str
  = (true, Some i, Some n, Some r) ->
  exists res,
    compute_score str_lower solution_str gt std_format std_acc = Some res
    /\ compute_score str_lower (pred res) gt std_format std_acc = Some res.
Proof.
  intros H. destruct (valid_fields_shape _ _ _ _ H)
    as ((? & ? & ?) & (? & ? & ?) & ? & ?).
  destruct tags_hold_no_label as [Hg Hb].
  unfold compute_score at 1. rewrite H.
  destruct (bool_decide _) eqn:E; eexists; (split; [done|]); simpl;
    unfold compute_score; rewrite template_read by done; by rewrite E.
Qed.

(** X12. The layout of the whitespace of a solution does not change its
    score: the solution and its normalised form (trimmed, every run of
    whitespace made one space) get the same [score] and [acc], and the
    same [pred] when the solution is Valid. *)
Theorem score_ignores_whitespace_layout (solution_str : pystr)
    (gt : ground_truth) (std_format std_acc : float) :
  exists res res',
    compute_score str_lower solution_str gt std_format std_acc = Some res
    /\ compute_score str_lower (normalise solution_str) gt std_format std_acc
       = Some res'
    /\ score res' = score res /\ acc res' = acc res
    /\ (is_valid (validate_and_extract_llm_content solution_str) = true ->
        pred res' = pred res).
Proof.
  unfold compute_score.
  rewrite (validate_normalise_eq (normalise solution_str) solution_str)
    by apply normalise_idempotent.
  destruct (validate_cases solution_str) as [->|(m & _ & _ & _ & _ & ->)].
  - do 2 eexists. split; [done|]. split; [done|]. by repeat split.
  - destruct (bool_decide _); do 2 eexists; by repeat split.
Qed.

End WithLower.

Lemma ground_truth_as_set_witness :
  compute_score lower_ascii (lit "Intent: a Node: N2 Reason: c")
                (GtSeq [lit "n1"; lit "n2"; lit "n1"]) one three
  = compute_score lower_ascii (lit "Intent: a Node: N2 Reason: c")
                  (GtSeq [lit "n2"; lit "n1"]) one three.
Proof.
  apply (ground_truth_as_set lower_ascii).
  intros x. rewrite !elem_of_cons, !elem_of_nil. tauto.
Defined.

Lemma rescoring_pred_is_stable_witness :
  exists res,
    compute_score lower_ascii (lit "intent: a  node: N2 reason: c")
                  (GtStr (lit "n1, n2")) one three = Some res
    /\ compute_score lower_ascii (pred res) (GtStr (lit "n1, n2")) one three
       = Some res.
Proof.
  apply (rescoring_pred_is_stable lower_ascii _ (lit "a") (lit "N2") (lit "c")).
  vm_compute; reflexivity.
Defined.

End ScorerMore.

Module Validity.

Import PyStrFacts SreFacts ExtractorFacts WhitespaceFacts ExtractorMore
       MatcherMore PlainInputs.

(** *** A value that does not begin with whitespace *)

Lemma field_nonblank g w P pos V L T mk r :
  is_label w -> ~ all_space V -> ci w L ->
  (forall pos' mk', is_Some (exec P pos' T mk')) ->
  step spaces (step (Open g) (step (Rep Any 1 false) (step (Close g)
    (step spaces (exec (map (fun c => One (Lit c)) w ++ P))))))
    pos (V ++ L ++ T) mk = Some r ->
  exists ws x w2 L' V',
    V ++ L ++ T = ws ++ x ++ w2 ++ L' ++ V' ++ T
    /\ all_space ws /\ x <> []
    /\ (forall c, head x = Some c -> is_space c = false)
    /\ all_space w2 /\ ci w L'
    /\ exec P (pos + length ws + length x + length w2 + length w) (V' ++ T)
            ((g, false, pos + length ws + length x)
               :: (g, true, pos + length ws) :: mk) = Some r.
Proof.
  intros Hw HV HL Hc H.
  destruct (label_found _ _ Hw HL) as [HLne HLns].
  destruct (lstrip_split V) as (ws & EV & Hws).
  destruct (lstrip V) as [|y0 y] eqn:Ey.
  { exfalso. apply HV. by rewrite EV, app_nil_r. }
  pose proof (lstrip_head _ _ _ Ey) as Hy0.
  set (K2 := step (Close g)
               (step spaces (exec (map (fun c => One (Lit c)) w ++ P)))) in *.
  assert (HK2 : forall pos' mk', is_Some (K2 pos' (L ++ T) mk')).
  { intros pos' mk'. apply closing_label_tried; [done | apply Hc]. }
  set (K1 := step (Open g) (step (Rep Any 1 false) K2)) in *.
  unfold spaces at 1 in H. cbn [step] in H.
  rewrite EV, <- app_assoc in H.
  assert (H1 : K1 (pos + length ws) ((y0 :: y) ++ L ++ T) mk = Some r).
  { destruct (K1 (pos + length ws) ((y0 :: y) ++ L ++ T) mk) as [r'|] eqn:E.
    - rewrite (rep_greedy_max Space 0 K1 pos ws _ mk r') in H; try done; [|lia].
      intros c t [= <- _]. done.
    - exfalso. apply eq_None_not_Some in E. apply E. subst K1. cbn [step].
      apply rep_lazy_complete; [by apply Forall_true | simpl; lia | apply HK2]. }
  clear H. subst K1. cbn [step] in H1.
  apply rep_lazy_sound_min in H1 as (x & rest' & E1 & Hx & HK & Hfail).
  assert (Hshort : length x <= length (y0 :: y)).
  { destruct (decide (length x <= length (y0 :: y))) as [|Hlong]; [done|].
    exfalso. specialize (Hfail (length (y0 :: y))).
    rewrite <- drop_app_le, <- E1, drop_app_length in Hfail by lia.
    destruct (HK2 (pos + length ws + length (y0 :: y))
                  ((g, true, pos + length ws) :: mk)) as [r' Hr'].
    rewrite Hfail in Hr'; [done | simpl; lia | lia]. }
  assert (Hhead : forall c, head x = Some c -> is_space c = false).
  { destruct x as [|x0 x]; [done|]. injection E1 as <- _.
    by intros c [= <-]. }
  subst K2. cbn [step] in HK. unfold spaces in HK. cbn [step] in HK.
  apply rep_greedy_sound in HK as (w2 & r3 & -> & Hw2 & _ & HK).
  change (all_space w2) in Hw2.
  cbv beta in HK. rewrite exec_lits in HK.
  destruct (ci_strip w r3) as [T'|] eqn:E3; [|done].
  apply ci_strip_spec in E3 as (L' & -> & HL').
  pose proof (ci_length _ _ HL) as HLlen.
  pose proof (ci_length _ _ HL') as HLlen'.
  (* the whitespace after the value stops before the label [L] *)
  assert (Hfit : length x + length w2 <= length (y0 :: y)).
  { destruct (decide (length x + length w2 <= length (y0 :: y))) as [|Hover];
      [done|].
    exfalso. destruct L as [|l0 L0]; [done|].
    inversion HLns as [|? ? Hl0 _]; subst.
    assert (Hl : ((y0 :: y) ++ (l0 :: L0) ++ T) !! length (y0 :: y) = Some l0).
    { by rewrite lookup_app_r, Nat.sub_diag by lia. }
    rewrite E1, lookup_app_r, lookup_app_l in Hl by lia.
    apply list_elem_of_lookup_2 in Hl.
    rewrite (proj1 (Forall_forall _ _) Hw2 _ Hl) in Hl0. done. }
  assert (ET : T' = drop (length x + length w2 + length L') ((y0 :: y) ++ L) ++ T).
  { apply (f_equal (drop (length x + length w2 + length L'))) in E1.
    rewrite (app_assoc (y0 :: y)), drop_app_le in E1
      by (rewrite length_app; lia).
    rewrite E1.
    replace (x ++ w2 ++ L' ++ T') with ((x ++ w2 ++ L') ++ T')
      by by rewrite <- !app_assoc.
    rewrite drop_app_length'; [done|]. rewrite !length_app. lia. }
  exists ws, x, w2, L',
    (drop (length x + length w2 + length L') ((y0 :: y) ++ L)).
  split.
  { rewrite EV, <- ET, <- app_assoc. by rewrite E1. }
  split; [done|]. split; [by destruct x; [simpl in Hx; lia|]|].
  split; [done|]. split; [done|]. split; [done|].
  by rewrite <- ET.
Qed.

(** The match found at a place after which the text holds a [Node:]
    label and a [Reason:] label with something that is not blank
    before, between and after them: none of its three values is blank. *)
Lemma exec_pattern_nonblank pre T e mk V1 N V2 R V3 :
  exec pattern (length pre) T [] = Some (e, mk) ->
  drop 7 T = V1 ++ N ++ V2 ++ R ++ V3 ->
  ~ all_space V1 -> ci node_label N -> ~ all_space V2 ->
  ci reason_label R -> V3 <> [] ->
  (forall x, last V3 = Some x -> is_space x = false) ->
  exists a,
    text_of a = pre ++ T /\ well_formed a
    /\ reads (MatchObj (length pre) e mk) a
    /\ (forall x, head (a_intent a) = Some x -> is_space x = false)
    /\ (forall x, head (a_node a) = Some x -> is_space x = false)
    /\ (forall x, last (a_reason a) = Some x -> is_space x = false).
Proof.
  unfold pattern, lits. intros H ET HV1 HN HV2 HR HV3 Hlast.
  rewrite exec_lits in H.
  destruct (ci_strip (lit "Intent:") T) as [r1|] eqn:E1; [|done].
  apply ci_strip_spec in E1 as (I & -> & HI).
  pose proof (ci_length _ _ HI) as HIlen.
  change (length (lit "Intent:")) with 7 in HIlen.
  rewrite <- HIlen, drop_app_length in ET. subst r1.
  cbn [app exec] in H.
  apply (field_nonblank Gintent node_label) in H
    as (w1 & a & w2 & N' & V' & E & Hw1 & Ha & Hha & Hw2 & HN' & H);
    try done; [|by right; left|].
  2:{ intros pos' mk'. cbn [app exec].
      replace (V2 ++ R ++ V3) with (V2 ++ [] ++ R ++ V3) by done.
      apply field_tried; [intros ->; apply HV2; constructor | constructor |].
      rewrite exec_lits.
      assert (ci_strip (lit "Reason:") (R ++ V3) = Some V3) as ->
        by (apply ci_strip_spec; eauto).
      cbn [app exec]. apply (last_field_tried Greason _ [] V3); [constructor | done]. }
  cbn [app exec] in H. rewrite (app_assoc V' V2) in H.
  apply (field_nonblank Gnode reason_label) in H
    as (w3 & b & w4 & R' & V'' & E' & Hw3 & Hb & Hhb & Hw4 & HR' & H);
    try done; [|by right; right| |].
  2:{ intros Hall. apply HV2. by apply Forall_app in Hall as [_ ?]. }
  2:{ intros pos' mk'. cbn [app exec].
      apply (last_field_tried Greason _ [] V3); [constructor | done]. }
  cbn [app exec] in H.
  eapply last_field_sound in H as (w5 & z & Ez & Hw5 & Hz & -> & ->); [|done].
  exists (Anatomy pre I w1 a w2 N' w3 b w4 R' w5 z).
  split.
  { unfold text_of. anatomy_simpl. do 2 f_equal.
    rewrite E. do 4 f_equal. rewrite <- app_assoc in E'.
    rewrite E'. do 4 f_equal. done. }
  split; [by repeat split|]. split.
  { unfold reads, span, intent_start, node_start, reason_start. cbn.
    rewrite (ci_length _ _ HI), (ci_length _ _ HN'), (ci_length _ _ HR').
    repeat split; do 2 f_equal; cbn; lia. }
  cbn [a_intent a_node a_reason]. split; [done|]. split; [done|].
  intros x Hx. apply Hlast.
  assert (L1 : last (V'' ++ V3) = last V3).
  { rewrite last_app. destruct (last V3) eqn:El; [done|].
    by apply last_None in El. }
  assert (L2 : last (w5 ++ z) = last z).
  { rewrite last_app. destruct (last z) eqn:El; [done|].
    by apply last_None in El. }
  by rewrite <- L1, Ez, L2.
Qed.

Lemma exec_pattern_tried pos I V1 N V2 R V3 mk :
  ci intent_label I -> V1 <> [] -> ci node_label N -> V2 <> [] ->
  ci reason_label R -> V3 <> [] ->
  is_Some (exec pattern pos (I ++ V1 ++ N ++ V2 ++ R ++ V3) mk).
Proof.
  intros HI HV1 HN HV2 HR HV3. unfold pattern, lits. rewrite exec_lits.
  assert (ci_strip (lit "Intent:") (I ++ V1 ++ N ++ V2 ++ R ++ V3)
          = Some (V1 ++ N ++ V2 ++ R ++ V3)) as ->
    by (apply ci_strip_spec; eauto).
  cbn [app exec].
  replace (V1 ++ N ++ V2 ++ R ++ V3) with (V1 ++ [] ++ N ++ V2 ++ R ++ V3)
    by done.
  apply field_tried; [done | constructor |].
  rewrite exec_lits.
  assert (ci_strip (lit "Node:") (N ++ V2 ++ R ++ V3) = Some (V2 ++ R ++ V3))
    as -> by (apply ci_strip_spec; eauto).
  cbn [app exec].
  replace (V2 ++ R ++ V3) with (V2 ++ [] ++ R ++ V3) by done.
  apply field_tried; [done | constructor |].
  rewrite exec_lits.
  assert (ci_strip (lit "Reason:") (R ++ V3) = Some V3) as ->
    by (apply ci_strip_spec; eauto).
  cbn [app exec]. apply (last_field_tried Greason _ [] V3); [constructor | done].
Qed.

Lemma not_all_space_app_r x y : ~ all_space y -> ~ all_space (x ++ y).
Proof. intros H Hall. apply H. by apply Forall_app in Hall as [_ ?]. Qed.

Lemma not_all_space_drop n x y :
  n <= length x -> ~ all_space y -> ~ all_space (drop n (x ++ y)).
Proof.
  intros Hn H. rewrite drop_app_le by done. by apply not_all_space_app_r.
Qed.

Lemma search_from_nonblank pre P I V1 N V2 R V3 :
  ci intent_label I -> ~ all_space V1 -> ci node_label N ->
  ~ all_space V2 -> ci reason_label R -> V3 <> [] ->
  (forall x, last V3 = Some x -> is_space x = false) ->
  exists m a,
    search_from pattern (length pre) (P ++ I ++ V1 ++ N ++ V2 ++ R ++ V3)
    = Some m
    /\ text_of a = pre ++ P ++ I ++ V1 ++ N ++ V2 ++ R ++ V3
    /\ well_formed a /\ reads m a
    /\ (forall x, head (a_intent a) = Some x -> is_space x = false)
    /\ (forall x, head (a_node a) = Some x -> is_space x = false)
    /\ (forall x, last (a_reason a) = Some x -> is_space x = false).
Proof.
  intros HI HV1 HN HV2 HR HV3 Hlast.
  pose proof (ci_length _ _ HI) as HIlen.
  change (length intent_label) with 7 in HIlen.
  revert pre. induction P as [|p P IH]; intros pre.
  - destruct (exec_pattern_tried (length pre) I V1 N V2 R V3 [])
      as [[e mk] He]; try done.
    { intros ->. apply HV1. constructor. }
    { intros ->. apply HV2. constructor. }
    simpl app at 1.
    assert (Hs : search_from pattern (length pre) (I ++ V1 ++ N ++ V2 ++ R ++ V3)
                 = Some (MatchObj (length pre) e mk)).
    { by apply search_from_hit. }
    destruct (exec_pattern_nonblank pre _ e mk V1 N V2 R V3 He) as (a & Ha);
      try done.
    { by rewrite <- HIlen, drop_app_length. }
    by exists (MatchObj (length pre) e mk), a.
  - rewrite <- app_comm_cons. cbn [search_from].
    destruct (exec pattern (length pre)
                (p :: P ++ I ++ V1 ++ N ++ V2 ++ R ++ V3) [])
      as [[e mk]|] eqn:He.
    + destruct (exec_pattern_nonblank pre _ e mk
                  (drop 7 ((p :: P) ++ I) ++ V1) N V2 R V3 He) as (a & Ha);
        try done.
      * rewrite app_comm_cons.
        replace ((p :: P) ++ I ++ V1 ++ N ++ V2 ++ R ++ V3)
          with (((p :: P) ++ I) ++ V1 ++ N ++ V2 ++ R ++ V3)
          by by rewrite <- !app_assoc.
        rewrite drop_app_le by (rewrite length_app; simpl; lia).
        by rewrite <- app_assoc.
      * by apply not_all_space_app_r.
      * by exists (MatchObj (length pre) e mk), a.
    + replace (S (length pre)) with (length (pre ++ [p]))
        by (rewrite length_app; simpl; lia).
      destruct (IH (pre ++ [p])) as (m & a & Hm & Ha & Hrest).
      exists m, a. split; [done|]. split; [|done].
      by rewrite Ha, <- app_assoc.
Qed.

Lemma nonblank_head f :
  f <> [] -> (forall x, head f = Some x -> is_space x = false) ->
  strip f <> [].
Proof.
  intros Hne Hh E. apply strip_nil_all_space in E.
  destruct f as [|c f]; [done|]. inversion E as [|? ? Hc _]; subst.
  by rewrite (Hh c eq_refl) in Hc.
Qed.

Lemma nonblank_last f :
  f <> [] -> (forall x, last f = Some x -> is_space x = false) ->
  strip f <> [].
Proof.
  intros Hne Hl E. apply strip_nil_all_space in E.
  destruct f as [|c f _] using rev_ind; [done|].
  apply Forall_app in E as [_ E]. inversion E as [|? ? Hc _]; subst.
  by rewrite (Hl c (last_snoc _ _)) in Hc.
Qed.

Lemma normalise_not_blank x : normalise x <> [] -> ~ all_space (sub_spaces_from false x).
Proof.
  intros H Hall. apply H. rewrite normalise_alt. by apply strip_all_space.
Qed.

(** The cleaned form of a text with the three labels in it. *)
Lemma normalise_labelled x0 I x1 N x2 R x3 :
  ci intent_label I -> ci node_label N -> ci reason_label R ->
  normalise x3 <> [] ->
  normalise (x0 ++ I ++ x1 ++ N ++ x2 ++ R ++ x3)
  = lstrip (sub_spaces_from false x0) ++ I ++ sub_spaces_from false x1
      ++ N ++ sub_spaces_from false x2 ++ R
      ++ rstrip (sub_spaces_from false x3).
Proof.
  intros HI HN HR H3.
  destruct (label_found intent_label I) as [HIne HIns]; [by left | done |].
  destruct (label_found node_label N) as [? ?]; [by right; left | done |].
  destruct (label_found reason_label R) as [? ?]; [by right; right | done |].
  rewrite normalise_alt. unfold sub_spaces.
  rewrite !sub_spaces_around by done.
  set (X0 := sub_spaces_from false x0). set (S1 := sub_spaces_from false x1).
  set (S2 := sub_spaces_from false x2). set (S3 := sub_spaces_from false x3).
  assert (H3' : rstrip S3 <> []).
  { intros E. apply H3. rewrite normalise_alt. unfold sub_spaces. fold S3.
    destruct (rstrip_split S3) as (t & ES & Ht). rewrite E in ES. simpl in ES.
    rewrite ES. by apply strip_all_space. }
  unfold strip.
  assert (Hl : lstrip (X0 ++ I ++ S1 ++ N ++ S2 ++ R ++ S3)
               = lstrip X0 ++ I ++ S1 ++ N ++ S2 ++ R ++ S3).
  { destruct (lstrip X0) as [|y u] eqn:E.
    - destruct (lstrip_split X0) as (l & Hp & Hsp). rewrite E, app_nil_r in Hp.
      subst l. rewrite lstrip_spaces by done.
      destruct HIns as [|c I' Hc _]; [done|]. simpl. by rewrite Hc.
    - rewrite lstrip_app_keep; [by rewrite E|]. by rewrite E. }
  rewrite Hl.
  replace (lstrip X0 ++ I ++ S1 ++ N ++ S2 ++ R ++ S3)
    with ((lstrip X0 ++ I ++ S1 ++ N ++ S2 ++ R) ++ S3)
    by by rewrite <- !app_assoc.
  rewrite rstrip_app_keep by done. by rewrite <- !app_assoc.
Qed.

Lemma labelled_texts_valid x0 I x1 N x2 R x3 :
  ci intent_label I -> ci node_label N -> ci reason_label R ->
  normalise x1 <> [] -> normalise x2 <> [] -> normalise x3 <> [] ->
  is_valid (validate_and_extract_llm_content
              (x0 ++ I ++ x1 ++ N ++ x2 ++ R ++ x3)) = true.
Proof.
  intros HI HN HR H1 H2 H3.
  unfold validate_and_extract_llm_content.
  fold (normalise (x0 ++ I ++ x1 ++ N ++ x2 ++ R ++ x3)).
  rewrite normalise_labelled by done.
  set (S3 := sub_spaces_from false x3).
  assert (H3' : rstrip S3 <> []).
  { intros E. apply H3. rewrite normalise_alt. unfold sub_spaces. fold S3.
    destruct (rstrip_split S3) as (t & ES & Ht). rewrite E in ES. simpl in ES.
    rewrite ES. by apply strip_all_space. }
  assert (Hlast : forall x, last (rstrip S3) = Some x -> is_space x = false).
  { intros x Hx. destruct (rstrip S3) as [|c t _] eqn:E using rev_ind; [done|].
    rewrite last_snoc in Hx. injection Hx as <-. by eapply rstrip_last. }
  destruct (search_from_nonblank [] (lstrip (sub_spaces_from false x0)) I
              (sub_spaces_from false x1) N (sub_spaces_from false x2) R
              (rstrip S3) HI (normalise_not_blank _ H1) HN
              (normalise_not_blank _ H2) HR H3' Hlast)
    as (m & a & Hm & Ha & Hwf & Hreads & Ga & Gb & Gz).
  simpl in Hm, Ha. unfold search. rewrite Hm. rewrite <- Ha.
  destruct (reads_groups a m Hreads) as (-> & -> & ->).
  destruct Hwf as (_ & _ & _ & _ & _ & _ & _ & _ & Ha' & Hb' & Hz').
  pose proof (nonblank_head _ Ha' Ga). pose proof (nonblank_head _ Hb' Gb).
  pose proof (nonblank_last _ Hz' Gz).
  destruct (strip (a_intent a)); [done|]. destruct (strip (a_node a)); [done|].
  by destruct (strip (a_reason a)).
Qed.

Lemma normalise_nil_iff x : normalise x = [] <-> all_space x.
Proof.
  split.
  - unfold normalise, sub_spaces. intros H. apply strip_nil_all_space.
    destruct (strip x) as [|c t]; [done|]. simpl in H.
    by destruct (is_space c).
  - intros H. unfold normalise. by rewrite strip_all_space.
Qed.

Lemma valid_labelled content :
  is_valid (validate_and_extract_llm_content content) = true
  <-> exists x0 I x1 N x2 R x3,
        content = x0 ++ I ++ x1 ++ N ++ x2 ++ R ++ x3
        /\ ci intent_label I /\ ci node_label N /\ ci reason_label R
        /\ ~ all_space x1 /\ ~ all_space x2 /\ ~ all_space x3.
Proof.
  split.
  - intros H.
    destruct (validate_cases content) as [E|(m & _ & H1 & H2 & H3 & E)].
    { by rewrite E in H. }
    destruct (fields_between_labels _ _ _ _ E)
      as (x0 & I & x1 & N & x2 & R & x3 & Hc & HI & HN & HR & E1 & E2 & E3).
    exists x0, I, x1, N, x2, R, x3. rewrite <- !normalise_nil_iff.
    rewrite <- E1, <- E2, <- E3. by repeat split.
  - intros (x0 & I & x1 & N & x2 & R & x3 & -> & HI & HN & HR & H1 & H2 & H3).
    rewrite <- normalise_nil_iff in H1, H2, H3.
    by apply labelled_texts_valid.
Qed.

(** X13. What makes an input Valid.  The extraction is Valid exactly
    when the input holds an [Intent:] label, later a [Node:] label and
    later a [Reason:] label (in any case of the letters) such that the
    text between the first two, the text between the last two and the
    text after the last are not blank. *)
Theorem valid_iff_labelled_texts (content : pystr) :
  is_valid (validate_and_extract_llm_content content) = true
  <-> exists x0 I x1 N x2 R x3,
        content = x0 ++ I ++ x1 ++ N ++ x2 ++ R ++ x3
        /\ ci intent_label I /\ ci node_label N /\ ci reason_label R
        /\ ~ all_space x1 /\ ~ all_space x2 /\ ~ all_space x3.
Proof. apply valid_labelled. Qed.

(** X14. Text around a Valid input does not make it Invalid: with any
    text before it and any text after it, the input is still Valid (the
    values may change). *)
Theorem validity_survives_context (p s t : pystr) :
  is_valid (validate_and_extract_llm_content s) = true ->
  is_valid (validate_and_extract_llm_content (p ++ s ++ t)) = true.
Proof.
  rewrite !valid_labelled.
  intros (x0 & I & x1 & N & x2 & R & x3 & -> & HI & HN & HR & H1 & H2 & H3).
  exists (p ++ x0), I, x1, N, x2, R, (x3 ++ t).
  split; [by rewrite <- !app_assoc|]. repeat split; try done.
  intros H. apply H3. by apply Forall_app in H as [? _].
Qed.

Lemma validity_survives_context_witness :
  is_valid (validate_and_extract_llm_content
              (lit "Intent: x Node: " ++ lit "Intent: a Node: b Reason: c"
                 ++ lit " Reason: d")) = true.
Proof.
  apply (validity_survives_context (lit "Intent: x Node: ")
           (lit "Intent: a Node: b Reason: c") (lit " Reason: d")).
  vm_compute; reflexivity.
Defined.

End Validity.
